(** * DirModel: the directory-listing model of main.cpp

    A shallow embedding of the class [DirModel] (main.cpp, lines 45-302):
    its role table, the read accessors [rowCount] and [data], the
    comparator [fileCompare], and the commands [setPath], [refresh], [rm]
    and [rename].

    Conventions.
    - [int] and [qint64] values are [Z]; no arithmetic of the class can
      leave their range ([/] on a [qint64] is C++ truncating division,
      [Z.quot]).
    - A [QFileInfo] is the record of the answers of the getters the class
      calls on it.
    - Qt, the C++ standard library and the operating system are reached
      through the class [Platform]; what the theorems need of them is
      stated as named contracts and taken as explicit premises.
    - A member function that changes the object or the file system is a
      computation in the monad [M]: it takes the world (file system and
      object) and returns its result, the new world and the events it
      produced, in the order in which it produced them.
    - [Q_ASSERT] expands to nothing: [data] (line 105) asserts over an
      identifier, [roles], that is not in scope there, so the file only
      builds with assertions compiled out. *)

From Stdlib Require Import ZArith String Ascii List Bool Sorted Permutation Lia.
From stdpp Require Import gmap strings list fin_maps pretty sorting.

Local Open Scope Z_scope.

(** ** Qt value types *)

(** [QDateTime]: a point in time, as milliseconds since the epoch. *)
Definition QDateTime : Type := Z.

(** [QUrl], as far as [QUrl::fromLocalFile] builds one. *)
Record QUrl : Type := fromLocalFile { toLocalFile : string }.

(** [QDir]: the path the object reports through [path()]. *)
Record QDir : Type := mkQDir { QDir_path : string }.

Module QFileInfo.
(** The getters of [QFileInfo] used by [DirModel]. *)
Record t : Type := mk {
  fileName : string;
  filePath : string;
  absoluteFilePath : string;
  absolutePath : string;
  isDir : bool;
  size : Z;
  created : QDateTime;
  lastModified : QDateTime
}.
End QFileInfo.

(** [QVariant], restricted to the types [data] returns. *)
Inductive QVariant : Type :=
| QVariant_invalid
| QVariant_string (s : string)
| QVariant_bool (b : bool)
| QVariant_dateTime (t : QDateTime)
| QVariant_url (u : QUrl).

(** [QModelIndex]: row and column; the invalid index has both at -1. *)
Record QModelIndex : Type := mkIndex { row : Z; column : Z }.

Definition QModelIndex_invalid : QModelIndex := mkIndex (-1) (-1).

(** ** Diagnostics, signals and file-system accesses *)

Inductive Diagnostic : Type :=
| ChangingTo (pathName : string)
| ChangedSuccessfully
| ContentsEntry (name : string)
| FailedToRemove (path : string)
| Renaming (row : Z) (newName : string)
| OutOfBoundsAccess
| RenameReturnedError
| OutOfRangeRole (role : Z)
| UnknownRole (role : Z).

Inductive Event : Type :=
| EvDebug (d : Diagnostic)
| EvWarning (d : Diagnostic)
| EvModelAboutToBeReset
| EvModelReset
| EvPathChanged
| FsScan (dir : QDir)
| FsRemove (path : string) (ok : bool)
| FsRenameFile (oldName newName : string) (ok : bool)
| FsRenameDir (oldName newName : string) (ok : bool).

Definition is_fs_access (e : Event) : bool :=
  match e with
  | FsScan _ | FsRemove _ _ | FsRenameFile _ _ _ | FsRenameDir _ _ _ => true
  | _ => false
  end.

Definition is_scan (e : Event) : bool :=
  match e with FsScan _ => true | _ => false end.

Definition is_reset (e : Event) : bool :=
  match e with EvModelReset => true | _ => false end.

Definition is_warning (e : Event) : bool :=
  match e with EvWarning _ => true | _ => false end.

(** ** The platform under the model *)

Class Platform : Type := {
  (** the states of the file system *)
  FileSystem : Type;
  (** [QDir(pathName).path()] *)
  QDir_cleanedPath : string -> string;
  (** [QDir::exists() && QDir::isReadable()] *)
  QDir_isReadable : FileSystem -> QDir -> bool;
  (** the entries a [QDirIterator] over the directory walks through, in
      the order of the walk *)
  QDirIterator_entries : FileSystem -> QDir -> list QFileInfo.t;
  (** [QFile::remove(path)] *)
  QFile_remove : string -> FileSystem -> bool * FileSystem;
  (** [QFile(oldName).rename(newName)] *)
  QFile_rename : string -> string -> FileSystem -> bool * FileSystem;
  (** [QDir::rename(oldName, newName)] *)
  QDir_rename : string -> string -> FileSystem -> bool * FileSystem;
  (** [QString::localeAwareCompare] *)
  QString_localeAwareCompare : string -> string -> Z;
  (** [std::sort] over a [QVector<QFileInfo>] *)
  std_sort : (QFileInfo.t -> QFileInfo.t -> bool) ->
             list QFileInfo.t -> list QFileInfo.t
}.

(** [QString::number(qint64)] *)
Definition QString_number (n : Z) : string := pretty n.

(** [QString::endsWith] *)
Definition endsWith (s suffix : string) : bool :=
  let n := String.length s in
  let k := String.length suffix in
  (k <=? n)%nat && String.eqb (substring (n - k) k s) suffix.

(** [QDir::separator()]; the program is UNIX only (lines 316-320). *)
Definition QDir_separator : string := "/".

(** ** Roles *)

Definition Qt_UserRole : Z := 32.

Definition FileNameRole : Z := Qt_UserRole.
Definition CreationDateRole : Z := Qt_UserRole + 1.
Definition ModifiedDateRole : Z := Qt_UserRole + 2.
Definition FileSizeRole : Z := Qt_UserRole + 3.
Definition IconSourceRole : Z := Qt_UserRole + 4.
Definition FilePathRole : Z := Qt_UserRole + 5.
Definition IsDirRole : Z := Qt_UserRole + 6.
Definition IsFileRole : Z := Qt_UserRole + 7.

(** The role names a [QAbstractItemModel] starts with. *)
Definition QAbstractItemModel_roleNames : gmap Z string :=
  <[5 := "whatsThis"]> (<[4 := "statusTip"]> (<[3 := "toolTip"]>
  (<[2 := "edit"]> (<[1 := "decoration"]> (<[0 := "display"]> ∅))))).

(** ** The object *)

Record DirModel : Type := mkDirModel {
  mCurrentDir : QDir;
  mDirectoryContents : list QFileInfo.t;
  mRoleMapping : gmap string Z
}.

(** Lines 63-72: the role names handed to [setRoleNames]. *)
Definition DirModel_roles : gmap Z string :=
  <[IsFileRole := "isFile"]> (<[IsDirRole := "isDir"]>
  (<[FilePathRole := "filePath"]> (<[IconSourceRole := "iconSource"]>
  (<[FileSizeRole := "fileSize"]> (<[ModifiedDateRole := "modifiedDate"]>
  (<[CreationDateRole := "creationDate"]> (<[FileNameRole := "fileName"]>
   QAbstractItemModel_roleNames))))))).

(** Lines 75-77: the reverse mapping, one [insert] per role. *)
Definition populate_reverse (roles : gmap Z string) : gmap string Z :=
  foldl (fun acc kv => <[kv.2 := kv.1]> acc) ∅ (map_to_list roles).

Section Model.
Context `{P : Platform}.

Definition QDir_new (pathName : string) : QDir :=
  mkQDir (QDir_cleanedPath pathName).

(** Lines 61-81: the constructor. *)
Definition DirModel_new : DirModel :=
  {| mCurrentDir := QDir_new "";
     mDirectoryContents := [];
     mRoleMapping := populate_reverse DirModel_roles |}.

(** [mDirectoryContents.count()] *)
Definition count (m : DirModel) : Z := Z.of_nat (length (mDirectoryContents m)).

(** Lines 83-89; a list model has no index with a valid parent. *)
Definition rowCount (m : DirModel) : Z := count m.

(** [QAbstractListModel::index(row, column)]: a valid index when
    [hasIndex] holds (one column), the invalid index otherwise. *)
Definition index (m : DirModel) (r c : Z) : QModelIndex :=
  if (r <? 0) || (c <? 0) then QModelIndex_invalid
  else if (r <? rowCount m) && (c <? 1) then mkIndex r c
  else QModelIndex_invalid.

(** Lines 127-136. *)
Definition fileSizeText (sz : Z) : string :=
  let kb := Z.quot sz 1024 in
  if kb <? 1 then QString_number sz +:+ " bytes"
  else if kb <? 1024 then QString_number kb +:+ " kb"
  else
    let kb := Z.quot kb 1024 in
    QString_number kb +:+ "mb".

(** Lines 137-150. *)
Definition iconSource (fi : QFileInfo.t) : QVariant :=
  let fileName := QFileInfo.fileName fi in
  if endsWith fileName ".jpg" || endsWith fileName ".png" then
    QVariant_url (fromLocalFile (QFileInfo.filePath fi))
  else if QFileInfo.isDir fi then
    QVariant_string "image://theme/icon-m-common-directory"
  else
    QVariant_string "image://theme/icon-m-content-document".

(** Lines 120-162: the [switch]. *)
Definition data_switch (fi : QFileInfo.t) (role : Z) : QVariant * list Event :=
  if role =? FileNameRole then (QVariant_string (QFileInfo.fileName fi), [])
  else if role =? CreationDateRole then (QVariant_dateTime (QFileInfo.created fi), [])
  else if role =? ModifiedDateRole then (QVariant_dateTime (QFileInfo.lastModified fi), [])
  else if role =? FileSizeRole then (QVariant_string (fileSizeText (QFileInfo.size fi)), [])
  else if role =? IconSourceRole then (iconSource fi, [])
  else if role =? FilePathRole then (QVariant_string (QFileInfo.filePath fi), [])
  else if role =? IsDirRole then (QVariant_bool (QFileInfo.isDir fi), [])
  else if role =? IsFileRole then (QVariant_bool (negb (QFileInfo.isDir fi)), [])
  else (QVariant_invalid, [EvWarning (UnknownRole role)]).

(** Lines 102-163: [data(const QModelIndex &, int)].  The value comes
    with the warnings written on the way; the object is [const]. *)
Definition data_index (m : DirModel) (idx : QModelIndex) (role : Z)
  : QVariant * list Event :=
  if (role <? FileNameRole) || (role >? IsFileRole) then
    (QVariant_invalid, [EvWarning (OutOfRangeRole role)])
  else if (row idx <? 0) || (row idx >=? count m) then (QVariant_invalid, [])
  else if negb (column idx =? 0) then (QVariant_invalid, [])
  else
    match mDirectoryContents m !! Z.to_nat (row idx) with
    | Some fi => data_switch fi role
    | None => (QVariant_invalid, [])
    end.

(** Lines 92-100: [data(int, const QByteArray &)]. *)
Definition data (m : DirModel) (r : Z) (stringRole : string)
  : QVariant * list Event :=
  match mRoleMapping m !! stringRole with
  | None => (QVariant_invalid, [])
  | Some role => data_index m (index m r 0) role
  end.

(** Lines 165-174. *)
Definition fileCompare (a b : QFileInfo.t) : bool :=
  if QFileInfo.isDir a && negb (QFileInfo.isDir b) then true
  else if QFileInfo.isDir b && negb (QFileInfo.isDir a) then false
  else QString_localeAwareCompare (QFileInfo.fileName a) (QFileInfo.fileName b) <? 0.

(** Lines 183-186. *)
Definition path (m : DirModel) : string := QDir_path (mCurrentDir m).

(** *** Commands *)

Record World : Type := mkWorld { w_fs : FileSystem; w_model : DirModel }.

Definition M (A : Type) : Type := World -> A * World * list Event.

Definition ret {A} (a : A) : M A := fun w => (a, w, []).

Definition bind {A B} (c : M A) (k : A -> M B) : M B :=
  fun w =>
    let '(a, w1, e1) := c w in
    let '(b, w2, e2) := k a w1 in
    (b, w2, e1 ++ e2).

Definition emit (e : Event) : M unit := fun w => (tt, w, [e]).

Definition get_model : M DirModel := fun w => (w_model w, w, []).

Definition put_model (m : DirModel) : M unit :=
  fun w => (tt, mkWorld (w_fs w) m, []).

(** A call into the platform that may change the file system. *)
Definition fs_call (op : FileSystem -> bool * FileSystem)
    (ev : bool -> Event) : M bool :=
  fun w => let '(ok, fs') := op (w_fs w) in
           (ok, mkWorld fs' (w_model w), [ev ok]).

(** The walk of a [QDirIterator]. *)
Definition iterate (dir : QDir) : M (list QFileInfo.t) :=
  fun w => (QDirIterator_entries (w_fs w) dir, w, [FsScan dir]).
End Model.

Declare Scope model_scope.
Delimit Scope model_scope with model.
Notation "x <- c1 ;; c2" := (bind c1 (fun x => c2))
  (at level 100, c1 at next level, right associativity) : model_scope.
Notation "c1 ;; c2" := (bind c1 (fun _ => c2))
  (at level 100, right associativity) : model_scope.

(** The outcome of running a command. *)
Definition result_of {A W} (r : A * W * list Event) : A := r.1.1.
Definition world_of {A W} (r : A * W * list Event) : W := r.1.2.
Definition events_of {A W} (r : A * W * list Event) : list Event := r.2.

Section Commands.
Context `{P : Platform}.
Local Open Scope model_scope.

Definition qDebug (d : Diagnostic) : M unit := emit (EvDebug d).
Definition qWarning (d : Diagnostic) : M unit := emit (EvWarning d).

(** Line 216: [it.fileName()[0] == QLatin1Char('.')]; the first
    character of an empty name is the null character. *)
Definition is_hidden (name : string) : bool :=
  match name with
  | String c _ => Ascii.eqb c "."
  | EmptyString => false
  end.

(** Lines 212-220: the loop over the iterator. *)
Fixpoint scan (entries directoryContents : list QFileInfo.t) : list QFileInfo.t :=
  match entries with
  | [] => directoryContents
  | fi :: rest =>
      if is_hidden (QFileInfo.fileName fi) then scan rest directoryContents
      else scan rest (directoryContents ++ [fi])
  end.

(** Lines 230-232. *)
Fixpoint debug_contents (l : list QFileInfo.t) : M unit :=
  match l with
  | [] => ret tt
  | fi :: rest => qDebug (ContentsEntry (QFileInfo.fileName fi)) ;; debug_contents rest
  end.

(** Lines 188-236. *)
Definition setPath (pathName : string) : M unit :=
  qDebug (ChangingTo pathName) ;;
  emit EvModelAboutToBeReset ;;
  m <- get_model ;;
  put_model (mkDirModel (mCurrentDir m) [] (mRoleMapping m)) ;;
  let tmpDir := QDir_new pathName in
  entries <- iterate tmpDir ;;
  let directoryContents := scan entries [] in
  let directoryContents := std_sort fileCompare directoryContents in
  m <- get_model ;;
  put_model (mkDirModel tmpDir directoryContents (mRoleMapping m)) ;;
  emit EvPathChanged ;;
  qDebug ChangedSuccessfully ;;
  debug_contents directoryContents ;;
  emit EvModelReset.

(** Lines 176-180. *)
Definition refresh : M unit :=
  m <- get_model ;;
  setPath (path m).

(** Lines 243-250: the loop of [rm], with its flag. *)
Fixpoint rm_loop (paths : list string) (error : bool) : M bool :=
  match paths with
  | [] => ret error
  | path :: rest =>
      ok <- fs_call (QFile_remove path) (FsRemove path) ;;
      let error := error || ok in
      if error then
        qWarning (FailedToRemove path) ;;
        rm_loop rest false
      else rm_loop rest error
  end.

(** Lines 238-254. *)
Definition rm (paths : list string) : M unit :=
  rm_loop paths false ;;
  refresh.

(** Lines 256-293.  [at(row)] is read past the bounds test, so the
    lookup finds an entry. *)
Definition rename (r : Z) (newName : string) : M bool :=
  qDebug (Renaming r newName) ;;
  m <- get_model ;;
  if (r <? 0) || (r >=? count m) then
    qWarning OutOfBoundsAccess ;;
    ret false
  else
    match mDirectoryContents m !! Z.to_nat r with
    | None => ret false
    | Some fi =>
        let target := QFileInfo.absolutePath fi +:+ QDir_separator +:+ newName in
        if negb (QFileInfo.isDir fi) then
          retval <- fs_call (QFile_rename (QFileInfo.absoluteFilePath fi) target)
                            (FsRenameFile (QFileInfo.absoluteFilePath fi) target) ;;
          (if negb retval then qDebug RenameReturnedError else refresh) ;;
          ret retval
        else
          retval <- fs_call (QDir_rename (QFileInfo.absoluteFilePath fi) target)
                            (FsRenameDir (QFileInfo.absoluteFilePath fi) target) ;;
          refresh ;;
          ret retval
    end.
End Commands.


(** ** What the model asks of the platform *)

(** The requirement of [std::sort] on its comparator. *)
Definition strict_weak_order {A : Type} (lt : A -> A -> bool) : Prop :=
  (forall a, lt a a = false) /\
  (forall a b c, lt a b = true -> lt b c = true -> lt a c = true) /\
  (forall a b c, lt a b = false -> lt b c = false -> lt a c = false).

(** No element is ordered before an element on its left. *)
Definition ascending {A : Type} (lt : A -> A -> bool) (l : list A) : Prop :=
  StronglySorted (fun a b => lt b a = false) l.

(** [std::sort] with a legal comparator rearranges the range into
    ascending order; it promises nothing on the order of equivalent
    elements. *)
Definition std_sort_contract `{P : Platform} : Prop :=
  forall comp l,
    strict_weak_order comp ->
    Permutation (std_sort comp l) l /\ ascending comp (std_sort comp l).

(** The collation orders the names: "collates before" is a strict weak
    order. *)
Definition collation_contract `{P : Platform} : Prop :=
  strict_weak_order (fun a b => QString_localeAwareCompare a b <? 0).

(** An iterator over a directory that is missing or cannot be read has
    no entry. *)
Definition unreadable_contract `{P : Platform} : Prop :=
  forall fs dir, QDir_isReadable fs dir = false -> QDirIterator_entries fs dir = [].

(** ** Views used in the statements *)

(** The listing [setPath] builds for a directory. *)
Definition loaded_listing `{P : Platform} (fs : FileSystem) (dir : QDir)
  : list QFileInfo.t :=
  std_sort fileCompare (scan (QDirIterator_entries fs dir) []).

(** The events of one reload of a directory into the given listing. *)
Definition reload_events (pathName : string) (dir : QDir)
    (l : list QFileInfo.t) : list Event :=
  [EvDebug (ChangingTo pathName); EvModelAboutToBeReset; FsScan dir;
   EvPathChanged; EvDebug ChangedSuccessfully]
  ++ map (fun fi => EvDebug (ContentsEntry (QFileInfo.fileName fi))) l
  ++ [EvModelReset].

(** The removal phase of [rm]: the file system it leaves and the events
    it produces. *)
Fixpoint removals `{P : Platform} (paths : list string) (fs : FileSystem)
  : FileSystem * list Event :=
  match paths with
  | [] => (fs, [])
  | path :: rest =>
      let '(ok, fs1) := QFile_remove path fs in
      let '(fs2, evs) := removals rest fs1 in
      (fs2, FsRemove path ok
              :: (if ok then [EvWarning (FailedToRemove path)] else []) ++ evs)
  end.

(** The paths of the removal attempts among some events, in order. *)
Fixpoint removal_attempts (evs : list Event) : list string :=
  match evs with
  | [] => []
  | FsRemove path _ :: rest => path :: removal_attempts rest
  | _ :: rest => removal_attempts rest
  end.

(** The size text in the words of the specification. *)
Definition spec_size_text (sz : Z) : string :=
  if sz <? 1024 then QString_number sz +:+ " bytes"
  else if Z.quot sz 1024 <? 1024 then QString_number (Z.quot sz 1024) +:+ " kb"
  else QString_number (Z.quot (Z.quot sz 1024) 1024) +:+ "mb".

(** The role table the constructor leaves in the object. *)
Definition constructed_roles (m : DirModel) : Prop :=
  mRoleMapping m = populate_reverse DirModel_roles.

(** The keys of the role map of the specification. *)
Definition role_keys : list string :=
  ["fileName"; "creationDate"; "modifiedDate"; "fileSize"; "iconSource";
   "filePath"; "isDir"; "isFile"]%string.

(** A string that begins with the marker of hidden files. *)
Definition starts_with_dot (s : string) : Prop :=
  exists rest, s = String "." rest.

(** ** A small platform to run the model on *)

Module Toy.

(** A collation that folds case: names compare by their lower-case
    spelling. *)
Definition to_lower (c : ascii) : ascii :=
  let n := nat_of_ascii c in
  if (65 <=? n)%nat && (n <=? 90)%nat then ascii_of_nat (n + 32) else c.

Fixpoint lower (s : string) : string :=
  match s with
  | EmptyString => EmptyString
  | String c rest => String (to_lower c) (lower rest)
  end.

Definition localeAwareCompare (a b : string) : Z :=
  match String.compare (lower a) (lower b) with
  | Lt => -1
  | Eq => 0
  | Gt => 1
  end.

(** Sorting by insertion. *)
Fixpoint insert {A : Type} (comp : A -> A -> bool) (x : A) (l : list A) : list A :=
  match l with
  | [] => [x]
  | y :: rest => if comp x y then x :: y :: rest else y :: insert comp x rest
  end.

Definition sort {A : Type} (comp : A -> A -> bool) (l : list A) : list A :=
  foldr (insert comp) [] l.

(** A [QDir] drops one trailing separator of a longer path. *)
Fixpoint drop_last_separator (s : string) : string :=
  match s with
  | EmptyString => EmptyString
  | String c EmptyString => if Ascii.eqb c "/" then EmptyString else s
  | String c rest => String c (drop_last_separator rest)
  end.

Definition cleanedPath (pathName : string) : string :=
  if (1 <? String.length pathName)%nat then drop_last_separator pathName
  else pathName.

(** The file system: every object below the root, the root itself being
    always there. *)
Definition FS : Type := list QFileInfo.t.

Definition at_path (p : string) (fi : QFileInfo.t) : bool :=
  String.eqb (QFileInfo.absoluteFilePath fi) p.

Definition is_directory (fs : FS) (p : string) : bool :=
  String.eqb p "/" || existsb (fun fi => QFileInfo.isDir fi && at_path p fi) fs.

Definition entries (fs : FS) (dir : QDir) : list QFileInfo.t :=
  if is_directory fs (QDir_path dir) then
    List.filter (fun fi => String.eqb (QFileInfo.absolutePath fi) (QDir_path dir)) fs
  else [].

(** Removal of a file; a directory is not removed. *)
Definition remove (p : string) (fs : FS) : bool * FS :=
  if existsb (fun fi => negb (QFileInfo.isDir fi) && at_path p fi) fs then
    (true, List.filter (fun fi => negb (at_path p fi)) fs)
  else (false, fs).

Fixpoint strip_prefix (pre s : string) : option string :=
  match pre, s with
  | EmptyString, _ => Some s
  | String a pre', String b s' => if Ascii.eqb a b then strip_prefix pre' s' else None
  | String _ _, EmptyString => None
  end.

(** The object after a rename inside its directory. *)
Definition renamed (fi : QFileInfo.t) (newPath name : string) : QFileInfo.t :=
  QFileInfo.mk name newPath newPath (QFileInfo.absolutePath fi)
    (QFileInfo.isDir fi) (QFileInfo.size fi)
    (QFileInfo.created fi) (QFileInfo.lastModified fi).

Fixpoint rename_in (oldName newName : string) (fs : FS) : FS :=
  match fs with
  | [] => []
  | fi :: rest =>
      (if at_path oldName fi then
         match strip_prefix (QFileInfo.absolutePath fi +:+ "/") newName with
         | Some name => renamed fi newName name
         | None => fi
         end
       else fi) :: rename_in oldName newName rest
  end.

(** A rename succeeds when the source is there, is of the kind asked
    for, stays in its directory, and the target name is free. *)
Definition rename_kind (dir : bool) (oldName newName : string) (fs : FS) : bool * FS :=
  if existsb (fun fi => Bool.eqb (QFileInfo.isDir fi) dir && at_path oldName fi
                        && bool_decide (is_Some (strip_prefix (QFileInfo.absolutePath fi +:+ "/") newName))) fs
     && negb (existsb (at_path newName) fs)
  then (true, rename_in oldName newName fs)
  else (false, fs).

#[export] Instance platform : Platform := {|
  FileSystem := FS;
  QDir_cleanedPath := cleanedPath;
  QDir_isReadable := fun fs dir => is_directory fs (QDir_path dir);
  QDirIterator_entries := entries;
  QFile_remove := remove;
  QFile_rename := rename_kind false;
  QDir_rename := rename_kind true;
  QString_localeAwareCompare := localeAwareCompare;
  std_sort := sort
|}.

(** Sample objects. *)
Definition file (dir name : string) (sz : Z) : QFileInfo.t :=
  QFileInfo.mk name (dir +:+ "/" +:+ name) (dir +:+ "/" +:+ name) dir false sz 0 0.

Definition directory (dir name : string) : QFileInfo.t :=
  QFileInfo.mk name (dir +:+ "/" +:+ name) (dir +:+ "/" +:+ name) dir true 0 0 0.

Definition home_fs : FS :=
  [ directory "" "home";
    file "/home" ".hidden" 10;
    file "/home" "B.txt" 500;
    file "/home" "a.txt" 2048;
    directory "/home" "sub" ].

(** The world with a model just built. *)
Definition fresh_world : World := mkWorld home_fs DirModel_new.

(** The world after the model is pointed at "/home". *)
Definition home_world : World := world_of (setPath "/home" fresh_world).

(** The same model after a file appeared behind its back. *)
Definition stale_world : World :=
  mkWorld (home_fs ++ [file "/home" "movie.png" (5 * 1024 * 1024)])
    (w_model home_world).

End Toy.

(** ** More views of the events *)


(** The calls of a rename primitive among the events. *)
Definition is_rename (e : Event) : bool :=
  match e with
  | FsRenameFile _ _ _ | FsRenameDir _ _ _ => true
  | _ => false
  end.

(** Lines 63-72 over any table [roleNames()] may hand back. *)
Definition DirModel_roles_over (base : gmap Z string) : gmap Z string :=
  <[IsFileRole := "isFile"]> (<[IsDirRole := "isDir"]>
  (<[FilePathRole := "filePath"]> (<[IconSourceRole := "iconSource"]>
  (<[FileSizeRole := "fileSize"]> (<[ModifiedDateRole := "modifiedDate"]>
  (<[CreationDateRole := "creationDate"]> (<[FileNameRole := "fileName"]>
   base))))))).

(** The shape every load gives the listing: ascending under
    [fileCompare], with no name the loop of [setPath] skips. *)
Definition listing_invariant `{P : Platform} (m : DirModel) : Prop :=
  ascending fileCompare (mDirectoryContents m) /\
  Forall (fun fi => is_hidden (QFileInfo.fileName fi) = false) (mDirectoryContents m).

(** A role the class answers for. *)
Definition role_in_range (role : Z) : Prop := FileNameRole <= role <= IsFileRole.

(** ** [Utils::pathsToHome] (lines 308-346) *)

(** What [pathsToHome] asks of Qt beyond [Platform]. *)
Class HomeOps `{P : Platform} : Type := {
  (** [QDir::homePath()] *)
  QDir_homePath : FileSystem -> string;
  (** [QDir().exists(name)] *)
  QDir_exists : FileSystem -> string -> bool;
  (** [d.cdUp()]: the directory [d] becomes, when the move succeeds *)
  QDir_cdUp : FileSystem -> QDir -> option QDir
}.

Inductive UtilsEvent : Type :=
| WarnHomeEmptyOrNonexistent (pathToHome : string)
| WarnHomeNotReadable (pathToHome : string)
| DebugPaths (paths : list string).

Section Utils.
Context `{H : HomeOps}.

(** Lines 337-339: the [do ... while (d.cdUp())] loop; [None] when the
    fuel runs out before [cdUp] fails. *)
Fixpoint cdUp_loop (fuel : nat) (fs : FileSystem) (d : QDir) (paths : list string)
  : option (list string) :=
  match fuel with
  | O => None
  | S fuel' =>
      let paths := paths ++ [QDir_path d] in
      match QDir_cdUp fs d with
      | Some d' => cdUp_loop fuel' fs d' paths
      | None => Some paths
      end
  end.

(** Lines 311-321: the home path, or "/" with a warning. *)
Definition home_or_root (fs : FileSystem) : string * list UtilsEvent :=
  let pathToHome := QDir_homePath fs in
  if String.eqb pathToHome "" || negb (QDir_exists fs pathToHome) then
    ("/"%string, [WarnHomeEmptyOrNonexistent pathToHome])
  else (pathToHome, []).

(** Lines 323-335: the directory the walk starts from. *)
Definition start_directory (fs : FileSystem) (pathToHome : string)
  : QDir * list UtilsEvent :=
  let d := QDir_new pathToHome in
  if negb (QDir_isReadable fs d) then
    (QDir_new "/", [WarnHomeNotReadable pathToHome])
  else (d, []).

(** Lines 308-346. *)
Definition pathsToHome (fuel : nat) (fs : FileSystem)
  : option (list string * list UtilsEvent) :=
  let '(pathToHome, ev1) := home_or_root fs in
  let '(d, ev2) := start_directory fs pathToHome in
  match cdUp_loop fuel fs d [] with
  | None => None
  | Some paths =>
      let paths := rev paths in
      Some (paths, ev1 ++ ev2 ++ [DebugPaths paths])
  end.

(** The paths met on the way up from a directory, the directory first,
    up to one that [cdUp] does not leave. *)
Inductive up_chain (fs : FileSystem) : QDir -> list string -> Prop :=
| up_chain_top d :
    QDir_cdUp fs d = None -> up_chain fs d [QDir_path d]
| up_chain_step d d' l :
    QDir_cdUp fs d = Some d' -> up_chain fs d' l ->
    up_chain fs d (QDir_path d :: l).
End Utils.

(** The small platform, with a home. *)
Module ToyHome.

(** The path without its last component; nothing for a path without
    separator. *)
Fixpoint dirname (s : string) : option string :=
  match s with
  | EmptyString => None
  | String c rest =>
      match dirname rest with
      | Some d => Some (String c d)
      | None => if Ascii.eqb c "/" then Some EmptyString else None
      end
  end.

Definition parent (p : string) : option string :=
  if String.eqb p "/" then None
  else match dirname p with
       | Some EmptyString => Some "/"%string
       | Some d => Some d
       | None => None
       end.

Definition cdUp (fs : Toy.FS) (d : QDir) : option QDir :=
  match parent (QDir_path d) with
  | Some p => if Toy.is_directory fs p then Some (mkQDir p) else None
  | None => None
  end.

Definition exists_name (fs : Toy.FS) (name : string) : bool :=
  String.eqb name "/" || existsb (Toy.at_path name) fs.

Definition ops (home : string) : @HomeOps Toy.platform :=
  @Build_HomeOps Toy.platform (fun _ => home) exists_name cdUp.

End ToyHome.

(** * Properties of the model *)

(** ** Running the commands *)

Section Runs.
Context `{P : Platform}.

(** The loop of [setPath] keeps the entries that are not hidden, in the
    order of the walk. *)
Lemma scan_filter (entries acc : list QFileInfo.t) :
  scan entries acc =
  acc ++ List.filter (fun fi => negb (is_hidden (QFileInfo.fileName fi))) entries.
Proof.
  revert acc. induction entries as [|fi rest IH]; intros acc; simpl.
  - by rewrite app_nil_r.
  - destruct (is_hidden (QFileInfo.fileName fi)); simpl; rewrite IH.
    + done.
    + by rewrite <- app_assoc.
Qed.

Lemma debug_contents_run (l : list QFileInfo.t) (w : World) :
  debug_contents l w =
  (tt, w, map (fun fi => EvDebug (ContentsEntry (QFileInfo.fileName fi))) l).
Proof.
  induction l as [|fi rest IH]; simpl; [done|].
  unfold bind, qDebug, emit. by rewrite IH.
Qed.

(** [setPath] in one step: the file system is left alone, the directory
    and the listing are replaced, the role table is kept. *)
Lemma setPath_run (pathName : string) (w : World) :
  setPath pathName w =
  (tt,
   mkWorld (w_fs w)
     (mkDirModel (QDir_new pathName)
        (loaded_listing (w_fs w) (QDir_new pathName))
        (mRoleMapping (w_model w))),
   reload_events pathName (QDir_new pathName)
     (loaded_listing (w_fs w) (QDir_new pathName))).
Proof.
  unfold setPath, bind, qDebug, emit, get_model, put_model, iterate. simpl.
  rewrite debug_contents_run. reflexivity.
Qed.

Lemma refresh_run (w : World) : refresh w = setPath (path (w_model w)) w.
Proof.
  unfold refresh, bind, get_model.
  destruct (setPath (path (w_model w)) w) as [[a w'] e]. reflexivity.
Qed.

(** The flag of the loop of [rm] is down at the start of every round. *)
Lemma rm_loop_run (paths : list string) (w : World) :
  rm_loop paths false w =
  (false, mkWorld (removals paths (w_fs w)).1 (w_model w),
   (removals paths (w_fs w)).2).
Proof.
  revert w. induction paths as [|p rest IH]; intros [fs m]; simpl.
  - reflexivity.
  - unfold bind, fs_call. simpl.
    destruct (QFile_remove p fs) as [ok fs1] eqn:E. simpl.
    destruct ok; simpl.
    + unfold bind, qWarning, emit. rewrite IH. simpl.
      destruct (removals rest fs1) as [fs2 evs]. reflexivity.
    + rewrite IH. simpl.
      destruct (removals rest fs1) as [fs2 evs]. reflexivity.
Qed.

Lemma rm_run (paths : list string) (w : World) :
  rm paths w =
  let w1 := mkWorld (removals paths (w_fs w)).1 (w_model w) in
  (tt, world_of (refresh w1),
   (removals paths (w_fs w)).2 ++ events_of (refresh w1)).
Proof.
  unfold rm, bind. rewrite rm_loop_run. simpl.
  destruct (refresh _) as [[[] w2] e2]. reflexivity.
Qed.

Lemma removal_attempts_app (e1 e2 : list Event) :
  removal_attempts (e1 ++ e2) = removal_attempts e1 ++ removal_attempts e2.
Proof.
  induction e1 as [|e rest IH]; simpl; [done|].
  destruct e; simpl; by rewrite ?IH.
Qed.

Lemma removal_attempts_reload pathName dir l :
  removal_attempts (reload_events pathName dir l) = [].
Proof.
  unfold reload_events. simpl. rewrite removal_attempts_app. simpl.
  rewrite app_nil_r. induction l as [|fi rest IH]; simpl; done.
Qed.

Lemma removals_attempts (paths : list string) (fs : FileSystem) :
  removal_attempts (removals paths fs).2 = paths.
Proof.
  revert fs. induction paths as [|p rest IH]; intros fs; simpl; [done|].
  destruct (QFile_remove p fs) as [ok fs1].
  specialize (IH fs1). destruct (removals rest fs1) as [fs2 evs]. simpl in *.
  destruct ok; simpl; by rewrite IH.
Qed.

Lemma removals_no_reset (paths : list string) (fs : FileSystem) :
  List.filter is_reset (removals paths fs).2 = [] /\
  List.filter is_scan (removals paths fs).2 = [].
Proof.
  revert fs. induction paths as [|p rest IH]; intros fs; simpl; [done|].
  destruct (QFile_remove p fs) as [ok fs1].
  specialize (IH fs1). destruct (removals rest fs1) as [fs2 evs]. simpl in *.
  destruct ok; simpl; done.
Qed.

Lemma reload_events_one_reset pathName dir l :
  List.filter is_reset (reload_events pathName dir l) = [EvModelReset] /\
  List.filter is_scan (reload_events pathName dir l) = [FsScan dir].
Proof.
  unfold reload_events. simpl. rewrite !List.filter_app. simpl.
  assert (H : forall f, (forall d, f (EvDebug d) = false) ->
            List.filter f (map (fun fi => EvDebug (ContentsEntry (QFileInfo.fileName fi))) l) = []).
  { intros f Hf. induction l as [|fi rest IH]; simpl; [done|]. by rewrite Hf. }
  rewrite !H by done. done.
Qed.

End Runs.

(** ** The order of a listing *)

Lemma ascending_lookup {A : Type} (lt : A -> A -> bool) (l : list A)
    (i j : nat) (a b : A) :
  ascending lt l -> (i < j)%nat -> l !! i = Some a -> l !! j = Some b ->
  lt b a = false.
Proof.
  unfold ascending. intros Hs. revert i j.
  induction Hs as [|x l Hs IH Hall]; intros i j Hij Hi Hj.
  - by rewrite lookup_nil in Hi.
  - destruct j as [|j]; [lia|]. simpl in Hj.
    destruct i as [|i]; simpl in Hi.
    + injection Hi as ->. rewrite Forall_forall in Hall.
      apply Hall. by eapply list_elem_of_lookup_2.
    + apply (IH i j); [lia|done|done].
Qed.

Section Ordering.
Context `{P : Platform}.

(** With a collation that orders the names, [fileCompare] is a comparator
    [std::sort] accepts. *)
Lemma fileCompare_strict_weak_order :
  collation_contract -> strict_weak_order fileCompare.
Proof.
  intros (Hirr & Htr & Hneg). unfold fileCompare. split; [|split].
  - intros a. destruct (QFileInfo.isDir a); simpl; apply Hirr.
  - intros a b c.
    destruct (QFileInfo.isDir a), (QFileInfo.isDir b), (QFileInfo.isDir c);
      simpl; try done; apply Htr.
  - intros a b c.
    destruct (QFileInfo.isDir a), (QFileInfo.isDir b), (QFileInfo.isDir c);
      simpl; try done; apply Hneg.
Qed.

Lemma loaded_listing_perm (fs : FileSystem) (dir : QDir) :
  std_sort_contract -> collation_contract ->
  Permutation (loaded_listing fs dir)
    (List.filter (fun fi => negb (is_hidden (QFileInfo.fileName fi)))
       (QDirIterator_entries fs dir)).
Proof.
  intros Hsort Hcoll. unfold loaded_listing.
  rewrite scan_filter. simpl.
  apply Hsort, fileCompare_strict_weak_order, Hcoll.
Qed.

Lemma loaded_listing_ascending (fs : FileSystem) (dir : QDir) :
  std_sort_contract -> collation_contract ->
  ascending fileCompare (loaded_listing fs dir).
Proof.
  intros Hsort Hcoll. apply Hsort, fileCompare_strict_weak_order, Hcoll.
Qed.

Lemma loaded_listing_not_hidden (fs : FileSystem) (dir : QDir) (i : nat)
    (fi : QFileInfo.t) :
  std_sort_contract -> collation_contract ->
  loaded_listing fs dir !! i = Some fi ->
  is_hidden (QFileInfo.fileName fi) = false.
Proof.
  intros Hsort Hcoll Hi.
  assert (Hin : In fi (loaded_listing fs dir)).
  { apply list_elem_of_In. by eapply list_elem_of_lookup_2. }
  apply (Permutation_in _ (loaded_listing_perm fs dir Hsort Hcoll)) in Hin.
  apply List.filter_In in Hin as [_ Hin]. by apply negb_true_iff in Hin.
Qed.

End Ordering.

(** ** The small platform meets the contracts *)

Lemma toy_insert_perm {A : Type} (comp : A -> A -> bool) (x : A) (l : list A) :
  Permutation (Toy.insert comp x l) (x :: l).
Proof.
  induction l as [|y rest IH]; simpl; [done|].
  destruct (comp x y); [done|].
  rewrite IH. apply perm_swap.
Qed.

Lemma toy_sort_perm {A : Type} (comp : A -> A -> bool) (l : list A) :
  Permutation (Toy.sort comp l) l.
Proof.
  induction l as [|x rest IH]; simpl; [done|].
  unfold Toy.sort in *. simpl. rewrite toy_insert_perm. by rewrite IH.
Qed.

Lemma toy_insert_ascending {A : Type} (comp : A -> A -> bool) (x : A)
    (l : list A) :
  strict_weak_order comp -> ascending comp l ->
  ascending comp (Toy.insert comp x l).
Proof.
  intros (Hirr & Htr & Hneg). unfold ascending.
  induction 1 as [|y rest Hs IH Hall]; simpl.
  - repeat constructor.
  - destruct (comp x y) eqn:Hxy.
    + constructor; [by constructor|].
      constructor.
      * destruct (comp y x) eqn:Hyx; [|done].
        pose proof (Hirr x). pose proof (Htr x y x Hxy Hyx). congruence.
      * rewrite Forall_forall in Hall |- *. intros z Hz.
        destruct (comp z x) eqn:Hzx; [|done].
        pose proof (Hall z Hz). pose proof (Htr z x y Hzx Hxy). congruence.
    + constructor; [done|].
      rewrite Forall_forall in Hall |- *. intros z Hz.
      rewrite (toy_insert_perm comp x rest) in Hz.
      apply elem_of_cons in Hz as [->|Hz]; [done|].
      by apply Hall.
Qed.

Lemma toy_sort_contract : @std_sort_contract Toy.platform.
Proof.
  intros comp l Hswo. split; [apply toy_sort_perm|].
  simpl. unfold Toy.sort.
  induction l as [|x rest IH]; simpl; [constructor|].
  by apply toy_insert_ascending.
Qed.

Lemma string_compare_lt_leb (a b : string) :
  String.compare a b = Lt <-> String.leb b a = false.
Proof.
  unfold String.leb. rewrite (String.compare_antisym a b).
  destruct (String.compare b a); simpl; split; congruence.
Qed.

Lemma toy_compare_neg (a b : string) :
  (Toy.localeAwareCompare a b <? 0) = negb (String.leb (Toy.lower b) (Toy.lower a)).
Proof.
  unfold Toy.localeAwareCompare.
  destruct (String.compare (Toy.lower a) (Toy.lower b)) eqn:E.
  - destruct (String.leb (Toy.lower b) (Toy.lower a)) eqn:F; [done|].
    apply string_compare_lt_leb in F. congruence.
  - apply string_compare_lt_leb in E. by rewrite E.
  - destruct (String.leb (Toy.lower b) (Toy.lower a)) eqn:F; [done|].
    apply string_compare_lt_leb in F. congruence.
Qed.

Lemma toy_collation_contract : @collation_contract Toy.platform.
Proof.
  assert (Htrans : forall x y z, String.leb x y = true -> String.leb y z = true ->
                                 String.leb x z = true).
  { intros x y z Hxy Hyz. apply Is_true_true.
    apply Is_true_true in Hxy, Hyz.
    exact (transitivity (R := String.le) Hxy Hyz). }
  assert (Hrefl : forall x, String.leb x x = true).
  { intros x. destruct (String.leb_total x x); done. }
  unfold collation_contract, strict_weak_order. simpl.
  split; [|split].
  - intros a. rewrite toy_compare_neg. by rewrite Hrefl.
  - intros a b c. rewrite !toy_compare_neg, !negb_true_iff. intros Hba Hcb.
    destruct (String.leb (Toy.lower c) (Toy.lower a)) eqn:Hca; [|done].
    destruct (String.leb_total (Toy.lower a) (Toy.lower b)) as [Hab|Hab];
      [|congruence].
    by rewrite (Htrans _ _ _ Hca Hab) in Hcb.
  - intros a b c. rewrite !toy_compare_neg, !negb_false_iff. intros Hba Hcb.
    by apply (Htrans _ _ _ Hcb Hba).
Qed.

Lemma toy_unreadable_contract : @unreadable_contract Toy.platform.
Proof.
  intros fs dir. simpl. unfold Toy.entries. by intros ->.
Qed.

(** ** Reading a row *)

Lemma data_in_range (m : DirModel) (r role : Z) (stringRole : string)
    (fi : QFileInfo.t) :
  mRoleMapping m !! stringRole = Some role ->
  FileNameRole <= role <= IsFileRole ->
  0 <= r ->
  mDirectoryContents m !! Z.to_nat r = Some fi ->
  data m r stringRole = data_switch fi role.
Proof.
  intros Hrole Hrange Hr Hfi.
  assert (Hlt : r < count m).
  { apply lookup_lt_Some in Hfi. unfold count. lia. }
  unfold data, index, rowCount, data_index. rewrite Hrole.
  replace (role <? FileNameRole) with false by lia.
  replace (role >? IsFileRole) with false by lia.
  replace (r <? 0) with false by lia.
  replace (r <? count m) with true by lia. simpl.
  replace (r <? 0) with false by lia.
  replace (r >=? count m) with false by lia. simpl.
  by rewrite Hfi.
Qed.

Lemma data_row_out_of_range (m : DirModel) (r : Z) (stringRole : string) :
  r < 0 \/ rowCount m <= r ->
  (data m r stringRole).1 = QVariant_invalid.
Proof.
  intros H. unfold data.
  destruct (mRoleMapping m !! stringRole) as [role|] eqn:Hrole; [|done].
  assert (Hidx : index m r 0 = QModelIndex_invalid).
  { unfold index. destruct (r <? 0) eqn:E; [done|]. simpl.
    replace (r <? rowCount m) with false by lia. done. }
  rewrite Hidx. unfold data_index. simpl.
  by destruct ((role <? FileNameRole) || (role >? IsFileRole)).
Qed.

Lemma in_range_lookup (m : DirModel) (r : Z) :
  0 <= r < rowCount m ->
  exists fi, mDirectoryContents m !! Z.to_nat r = Some fi.
Proof.
  unfold rowCount, count. intros Hr.
  apply lookup_lt_is_Some. lia.
Qed.

Lemma constructed_roles_lookup :
  populate_reverse DirModel_roles !! "fileName" = Some FileNameRole /\
  populate_reverse DirModel_roles !! "fileSize" = Some FileSizeRole /\
  populate_reverse DirModel_roles !! "isDir" = Some IsDirRole /\
  populate_reverse DirModel_roles !! "isFile" = Some IsFileRole.
Proof. vm_compute. done. Qed.

(** The table of the constructor: the eight roles of the class and the
    six names every item model starts with. *)
Lemma constructed_table :
  populate_reverse DirModel_roles =
  list_to_map [("fileName", FileNameRole); ("creationDate", CreationDateRole);
     ("modifiedDate", ModifiedDateRole); ("fileSize", FileSizeRole);
     ("iconSource", IconSourceRole); ("filePath", FilePathRole);
     ("isDir", IsDirRole); ("isFile", IsFileRole);
     ("display", 0); ("decoration", 1); ("edit", 2); ("toolTip", 3);
     ("statusTip", 4); ("whatsThis", 5)]%string.
Proof. vm_compute. reflexivity. Qed.

Lemma constructed_roles_in_range (key : string) (role : Z) :
  populate_reverse DirModel_roles !! key = Some role ->
  FileNameRole <= role <= IsFileRole ->
  In key role_keys.
Proof.
  rewrite constructed_table. unfold role_keys. simpl.
  cbv [FileNameRole CreationDateRole ModifiedDateRole FileSizeRole
       IconSourceRole FilePathRole IsDirRole IsFileRole Qt_UserRole].
  repeat (rewrite lookup_insert; case_decide;
          [intros Hrole; injection Hrole as <-; intros Hr;
           first [ lia | intuition congruence ] |]).
  rewrite lookup_empty. done.
Qed.

(** A key outside the role map reads nothing, also when it names one of
    the roles the base class brings along. *)
Lemma data_key_outside_roles (m : DirModel) (r : Z) (stringRole : string) :
  constructed_roles m -> ~ In stringRole role_keys ->
  (data m r stringRole).1 = QVariant_invalid.
Proof.
  intros Hroles Hkey. unfold data. rewrite Hroles.
  destruct (populate_reverse DirModel_roles !! stringRole) as [role|] eqn:Hrole;
    [|done].
  unfold data_index.
  destruct ((role <? FileNameRole) || (role >? IsFileRole)) eqn:Hrange; [done|].
  exfalso. apply Hkey, (constructed_roles_in_range stringRole role Hrole).
  apply orb_false_iff in Hrange. lia.
Qed.

Lemma fileSizeText_spec (sz : Z) : fileSizeText sz = spec_size_text sz.
Proof.
  unfold fileSizeText, spec_size_text.
  assert (H : (Z.quot sz 1024 <? 1) = (sz <? 1024)).
  { destruct (Z.ltb_spec sz 1024) as [Hlt|Hge].
    - apply Z.ltb_lt.
      destruct (Z.le_gt_cases 0 sz) as [Hpos|Hneg].
      + rewrite Z.quot_small; lia.
      + assert (0 <= Z.quot (- sz) 1024) by (apply Z.quot_pos; lia).
        rewrite Z.quot_opp_l in H by lia. lia.
    - apply Z.ltb_ge.
      assert (0 < Z.quot sz 1024) by (apply Z.quot_str_pos; lia). lia. }
  rewrite H. reflexivity.
Qed.

(** * The claims *)

(** C6. For every row in range, the size role renders the byte count of
    the entry as the specification says: the count itself with " bytes"
    below 1024, the count divided by 1024 with " kb" while that quotient
    is below 1024, and the count divided twice by 1024 with "mb" beyond;
    500 bytes read "500 bytes", 2048 bytes "2 kb" and 5 * 1024 * 1024
    bytes "5mb". *)
Theorem data_fileSize_rendering (m : DirModel) (r : Z) :
  constructed_roles m ->
  0 <= r < rowCount m ->
  exists fi,
    mDirectoryContents m !! Z.to_nat r = Some fi /\
    (data m r "fileSize").1 = QVariant_string (spec_size_text (QFileInfo.size fi)) /\
    (QFileInfo.size fi = 500 ->
     (data m r "fileSize").1 = QVariant_string "500 bytes") /\
    (QFileInfo.size fi = 2048 ->
     (data m r "fileSize").1 = QVariant_string "2 kb") /\
    (QFileInfo.size fi = 5 * 1024 * 1024 ->
     (data m r "fileSize").1 = QVariant_string "5mb").
Proof.
  intros Hroles Hr.
  destruct (in_range_lookup m r Hr) as [fi Hfi]. exists fi.
  assert (Hdata : (data m r "fileSize").1 =
                  QVariant_string (spec_size_text (QFileInfo.size fi))).
  { rewrite (data_in_range m r FileSizeRole "fileSize" fi).
    - unfold data_switch. simpl. by rewrite fileSizeText_spec.
    - rewrite Hroles. apply constructed_roles_lookup.
    - unfold FileSizeRole, FileNameRole, IsFileRole. lia.
    - lia.
    - done. }
  split; [done|]. split; [done|].
  rewrite Hdata. repeat split; intros ->; reflexivity.
Qed.

Lemma data_fileSize_rendering_witness :
  constructed_roles (w_model Toy.stale_world) /\
  0 <= 1 < rowCount (w_model Toy.stale_world) /\
  exists fi,
    mDirectoryContents (w_model Toy.stale_world) !! Z.to_nat 1 = Some fi /\
    (data (w_model Toy.stale_world) 1 "fileSize").1 =
      QVariant_string (spec_size_text (QFileInfo.size fi)) /\
    (QFileInfo.size fi = 500 ->
     (data (w_model Toy.stale_world) 1 "fileSize").1 = QVariant_string "500 bytes") /\
    (QFileInfo.size fi = 2048 ->
     (data (w_model Toy.stale_world) 1 "fileSize").1 = QVariant_string "2 kb") /\
    (QFileInfo.size fi = 5 * 1024 * 1024 ->
     (data (w_model Toy.stale_world) 1 "fileSize").1 = QVariant_string "5mb").
Proof.
  assert (H1 : constructed_roles (w_model Toy.stale_world)) by reflexivity.
  assert (H2 : 0 <= 1 < rowCount (w_model Toy.stale_world)) by (vm_compute; split; congruence).
  split; [exact H1|]. split; [exact H2|].
  exact (data_fileSize_rendering (w_model Toy.stale_world) 1 H1 H2).
Defined.

(** C7. A call of [data] with a key that is not in the role map (be it
    unknown to the object, or outside the eight keys of the map on an
    object as constructed), or with a row outside [0, rowCount), returns
    the invalid (empty) value; [data] is a function of the object and
    returns no new object, so it leaves the model as it was. *)
Theorem data_unknown_role_or_row_out_of_range (m : DirModel) (r : Z)
    (stringRole : string) :
  mRoleMapping m !! stringRole = None \/
  (constructed_roles m /\ ~ In stringRole role_keys) \/
  r < 0 \/ rowCount m <= r ->
  (data m r stringRole).1 = QVariant_invalid.
Proof.
  intros [H|[[Hroles Hkey]|H]].
  - unfold data. by rewrite H.
  - by apply data_key_outside_roles.
  - by apply data_row_out_of_range.
Qed.

Lemma data_unknown_role_or_row_out_of_range_witness :
  (mRoleMapping (w_model Toy.home_world) !! "fileName" = None \/
   (constructed_roles (w_model Toy.home_world) /\ ~ In "fileName"%string role_keys) \/
   999 < 0 \/ rowCount (w_model Toy.home_world) <= 999) /\
  rowCount (w_model Toy.home_world) = 3 /\
  (data (w_model Toy.home_world) 999 "fileName").1 = QVariant_invalid.
Proof.
  assert (H : mRoleMapping (w_model Toy.home_world) !! "fileName" = None \/
              (constructed_roles (w_model Toy.home_world) /\
               ~ In "fileName"%string role_keys) \/
              999 < 0 \/ rowCount (w_model Toy.home_world) <= 999).
  { right. right. right. vm_compute. congruence. }
  split; [exact H|]. split; [reflexivity|].
  exact (data_unknown_role_or_row_out_of_range (w_model Toy.home_world) 999 "fileName" H).
Defined.

(** C10. For every row in range, the "isFile" role is the negation of
    the "isDir" role: an entry is either a directory or a file, and
    whatever is not a directory reads as a file. *)
Theorem data_isFile_negates_isDir (m : DirModel) (r : Z) :
  constructed_roles m ->
  0 <= r < rowCount m ->
  exists fi,
    mDirectoryContents m !! Z.to_nat r = Some fi /\
    (data m r "isDir").1 = QVariant_bool (QFileInfo.isDir fi) /\
    (data m r "isFile").1 = QVariant_bool (negb (QFileInfo.isDir fi)).
Proof.
  intros Hroles Hr.
  destruct (in_range_lookup m r Hr) as [fi Hfi]. exists fi.
  split; [done|]. split.
  - rewrite (data_in_range m r IsDirRole "isDir" fi); [done| |done|lia|done].
    rewrite Hroles. apply constructed_roles_lookup.
  - rewrite (data_in_range m r IsFileRole "isFile" fi); [done| |done|lia|done].
    rewrite Hroles. apply constructed_roles_lookup.
Qed.

Lemma data_isFile_negates_isDir_witness :
  constructed_roles (w_model Toy.home_world) /\
  0 <= 0 < rowCount (w_model Toy.home_world) /\
  exists fi,
    mDirectoryContents (w_model Toy.home_world) !! Z.to_nat 0 = Some fi /\
    (data (w_model Toy.home_world) 0 "isDir").1 = QVariant_bool (QFileInfo.isDir fi) /\
    (data (w_model Toy.home_world) 0 "isFile").1 = QVariant_bool (negb (QFileInfo.isDir fi)).
Proof.
  assert (H1 : constructed_roles (w_model Toy.home_world)) by reflexivity.
  assert (H2 : 0 <= 0 < rowCount (w_model Toy.home_world)) by (vm_compute; split; congruence).
  split; [exact H1|]. split; [exact H2|].
  exact (data_isFile_negates_isDir (w_model Toy.home_world) 0 H1 H2).
Defined.

(** C8. A call of [rename] with a row outside [0, rowCount) returns
    false at once: it reaches no file-system primitive and leaves the
    file system and the object, the listing included, as they were. *)
Theorem rename_out_of_bounds_fails_fast `{P : Platform} (w : World) (r : Z)
    (newName : string) :
  r < 0 \/ rowCount (w_model w) <= r ->
  result_of (rename r newName w) = false /\
  world_of (rename r newName w) = w /\
  List.filter is_fs_access (events_of (rename r newName w)) = [].
Proof.
  intros H.
  assert (Hrun : rename r newName w =
                 (false, w, [EvDebug (Renaming r newName); EvWarning OutOfBoundsAccess])).
  { unfold rename, bind, qDebug, qWarning, emit, get_model, ret. simpl.
    replace ((r <? 0) || (r >=? count (w_model w))) with true; [done|].
    unfold rowCount in H. symmetry. apply orb_true_iff. lia. }
  rewrite Hrun. done.
Qed.

Lemma rename_out_of_bounds_fails_fast_witness :
  (7 < 0 \/ rowCount (w_model Toy.home_world) <= 7) /\
  result_of (rename 7 "z.txt" Toy.home_world) = false /\
  world_of (rename 7 "z.txt" Toy.home_world) = Toy.home_world /\
  List.filter is_fs_access (events_of (rename 7 "z.txt" Toy.home_world)) = [].
Proof.
  assert (H : 7 < 0 \/ rowCount (w_model Toy.home_world) <= 7).
  { right. vm_compute. congruence. }
  split; [exact H|].
  exact (rename_out_of_bounds_fails_fast Toy.home_world 7 "z.txt" H).
Defined.

(** C4. In the listing [setPath] produces, every directory stands at a
    lower row than every entry that is not a directory; within the
    directories, and within the other entries, names ascend in the
    collation of [localeAwareCompare] (no entry collates before one on a
    lower row); and no row holds a file with a directory on the next
    row. *)
Theorem setPath_listing_ordered `{P : Platform} (w : World) (pathName : string) :
  std_sort_contract -> collation_contract ->
  let l := mDirectoryContents (w_model (world_of (setPath pathName w))) in
  (forall (i j : nat) a b,
      l !! i = Some a -> l !! j = Some b ->
      QFileInfo.isDir a = true -> QFileInfo.isDir b = false -> (i < j)%nat) /\
  (forall (i j : nat) a b,
      (i < j)%nat -> l !! i = Some a -> l !! j = Some b ->
      QFileInfo.isDir a = QFileInfo.isDir b ->
      ~ QString_localeAwareCompare (QFileInfo.fileName b) (QFileInfo.fileName a) < 0) /\
  (forall (i : nat) a b,
      l !! i = Some a -> l !! S i = Some b ->
      ~ (QFileInfo.isDir a = false /\ QFileInfo.isDir b = true)).
Proof.
  intros Hsort Hcoll l.
  assert (Hasc : ascending fileCompare l).
  { subst l. rewrite setPath_run. simpl. by apply loaded_listing_ascending. }
  assert (Hdirs : forall (i j : nat) a b,
             (i < j)%nat -> l !! i = Some a -> l !! j = Some b ->
             ~ (QFileInfo.isDir a = false /\ QFileInfo.isDir b = true)).
  { intros i j a b Hij Hi Hj [Ha Hb].
    pose proof (ascending_lookup _ _ _ _ _ _ Hasc Hij Hi Hj) as Hcmp.
    unfold fileCompare in Hcmp. rewrite Ha, Hb in Hcmp. done. }
  split; [|split].
  - intros i j a b Hi Hj Ha Hb.
    destruct (Nat.lt_trichotomy i j) as [Hlt|[Heq|Hgt]]; [done| |].
    + subst j. rewrite Hi in Hj. injection Hj as ->. congruence.
    + exfalso. by apply (Hdirs j i b a Hgt Hj Hi).
  - intros i j a b Hij Hi Hj Hsame Hlt.
    pose proof (ascending_lookup _ _ _ _ _ _ Hasc Hij Hi Hj) as Hcmp.
    unfold fileCompare in Hcmp. rewrite Hsame in Hcmp.
    destruct (QFileInfo.isDir b); simpl in Hcmp; lia.
  - intros i a b Hi Hj. apply (Hdirs i (S i) a b); [lia|done|done].
Qed.

Lemma setPath_listing_ordered_witness :
  @std_sort_contract Toy.platform /\ @collation_contract Toy.platform /\
  let l := mDirectoryContents
             (w_model (world_of (setPath "/home" Toy.fresh_world))) in
  (forall (i j : nat) a b,
      l !! i = Some a -> l !! j = Some b ->
      QFileInfo.isDir a = true -> QFileInfo.isDir b = false -> (i < j)%nat) /\
  (forall (i j : nat) a b,
      (i < j)%nat -> l !! i = Some a -> l !! j = Some b ->
      QFileInfo.isDir a = QFileInfo.isDir b ->
      ~ Toy.localeAwareCompare (QFileInfo.fileName b) (QFileInfo.fileName a) < 0) /\
  (forall (i : nat) a b,
      l !! i = Some a -> l !! S i = Some b ->
      ~ (QFileInfo.isDir a = false /\ QFileInfo.isDir b = true)).
Proof.
  split; [exact toy_sort_contract|]. split; [exact toy_collation_contract|].
  exact (setPath_listing_ordered Toy.fresh_world "/home"
           toy_sort_contract toy_collation_contract).
Defined.

(** C5. The listing [setPath] produces holds no entry whose name begins
    with ".": no row index reaches such an entry, every row in range
    reads a name through the "fileName" role, and no row at all reads
    one that begins with ".". *)
Theorem setPath_listing_no_hidden `{P : Platform} (w : World) (pathName : string) :
  std_sort_contract -> collation_contract ->
  constructed_roles (w_model w) ->
  let m := w_model (world_of (setPath pathName w)) in
  (forall (i : nat) fi,
      mDirectoryContents m !! i = Some fi ->
      ~ starts_with_dot (QFileInfo.fileName fi)) /\
  (forall r, 0 <= r < rowCount m ->
      exists fi, mDirectoryContents m !! Z.to_nat r = Some fi /\
                 (data m r "fileName").1 = QVariant_string (QFileInfo.fileName fi)) /\
  (forall r s, (data m r "fileName").1 = QVariant_string s -> ~ starts_with_dot s).
Proof.
  intros Hsort Hcoll Hroles m.
  assert (Hm : m = mkDirModel (QDir_new pathName)
                     (loaded_listing (w_fs w) (QDir_new pathName))
                     (mRoleMapping (w_model w))).
  { subst m. by rewrite setPath_run. }
  assert (Hlist : forall (i : nat) fi,
             mDirectoryContents m !! i = Some fi ->
             ~ starts_with_dot (QFileInfo.fileName fi)).
  { intros i fi Hi [rest Hname]. rewrite Hm in Hi. simpl in Hi.
    apply loaded_listing_not_hidden in Hi; [|done|done].
    by rewrite Hname in Hi. }
  assert (Hread : forall r, 0 <= r < rowCount m ->
             exists fi, mDirectoryContents m !! Z.to_nat r = Some fi /\
                        (data m r "fileName").1 = QVariant_string (QFileInfo.fileName fi)).
  { intros r Hr. destruct (in_range_lookup m r Hr) as [fi Hfi]. exists fi.
    split; [done|].
    rewrite (data_in_range m r FileNameRole "fileName" fi); [done| |done|lia|done].
    rewrite Hm. simpl. rewrite Hroles. apply constructed_roles_lookup. }
  split; [done|]. split; [done|].
  intros r s Hs.
  destruct (Z.lt_ge_cases r 0) as [Hneg|Hpos].
  - rewrite data_row_out_of_range in Hs by auto. done.
  - destruct (Z.lt_ge_cases r (rowCount m)) as [Hin|Hout].
    + destruct (Hread r (conj Hpos Hin)) as (fi & Hfi & Hdata).
      rewrite Hdata in Hs. injection Hs as <-. by eapply Hlist.
    + rewrite data_row_out_of_range in Hs by auto. done.
Qed.

Lemma setPath_listing_no_hidden_witness :
  @std_sort_contract Toy.platform /\ @collation_contract Toy.platform /\
  constructed_roles (w_model Toy.fresh_world) /\
  let m := w_model (world_of (setPath "/home" Toy.fresh_world)) in
  (forall (i : nat) fi,
      mDirectoryContents m !! i = Some fi ->
      ~ starts_with_dot (QFileInfo.fileName fi)) /\
  (forall r, 0 <= r < rowCount m ->
      exists fi, mDirectoryContents m !! Z.to_nat r = Some fi /\
                 (data m r "fileName").1 = QVariant_string (QFileInfo.fileName fi)) /\
  (forall r s, (data m r "fileName").1 = QVariant_string s -> ~ starts_with_dot s).
Proof.
  assert (H : constructed_roles (w_model Toy.fresh_world)) by reflexivity.
  split; [exact toy_sort_contract|]. split; [exact toy_collation_contract|].
  split; [exact H|].
  exact (setPath_listing_no_hidden Toy.fresh_world "/home"
           toy_sort_contract toy_collation_contract H).
Defined.




(** C1, as the code has it.  When the target of [setPath] is missing or
    cannot be read, [setPath] returns as for any other path and reports
    nothing: the listing becomes the empty listing, the current
    directory becomes the target, the file system is left alone, and the
    events are those of an ordinary load of an empty directory, with no
    warning among them. *)
Theorem setPath_unavailable_loads_empty `{P : Platform} (w : World)
    (pathName : string) :
  std_sort_contract -> collation_contract -> unreadable_contract ->
  QDir_isReadable (w_fs w) (QDir_new pathName) = false ->
  setPath pathName w =
  (tt,
   mkWorld (w_fs w) (mkDirModel (QDir_new pathName) [] (mRoleMapping (w_model w))),
   [EvDebug (ChangingTo pathName); EvModelAboutToBeReset;
    FsScan (QDir_new pathName); EvPathChanged; EvDebug ChangedSuccessfully;
    EvModelReset]).
Proof.
  intros Hsort Hcoll Hunread Hdir.
  assert (Hl : loaded_listing (w_fs w) (QDir_new pathName) = []).
  { apply Permutation_nil_r.
    rewrite (loaded_listing_perm _ _ Hsort Hcoll).
    by rewrite (Hunread _ _ Hdir). }
  rewrite setPath_run, Hl. reflexivity.
Qed.

Lemma setPath_unavailable_loads_empty_witness :
  @std_sort_contract Toy.platform /\ @collation_contract Toy.platform /\
  @unreadable_contract Toy.platform /\
  QDir_isReadable (w_fs Toy.home_world) (@QDir_new Toy.platform "/nope") = false /\
  setPath "/nope" Toy.home_world =
  (tt,
   mkWorld (w_fs Toy.home_world)
     (mkDirModel (@QDir_new Toy.platform "/nope") [] (mRoleMapping (w_model Toy.home_world))),
   [EvDebug (ChangingTo "/nope"); EvModelAboutToBeReset;
    FsScan (@QDir_new Toy.platform "/nope"); EvPathChanged; EvDebug ChangedSuccessfully;
    EvModelReset]).
Proof.
  assert (H : QDir_isReadable (w_fs Toy.home_world) (@QDir_new Toy.platform "/nope") = false)
    by reflexivity.
  split; [exact toy_sort_contract|]. split; [exact toy_collation_contract|].
  split; [exact toy_unreadable_contract|]. split; [exact H|].
  exact (setPath_unavailable_loads_empty Toy.home_world "/nope"
           toy_sort_contract toy_collation_contract toy_unreadable_contract H).
Defined.

(** C1, as stated, fails: "/nope" is not a directory of the sample file
    system, and [setPath "/nope"] on the model that shows "/home"
    empties the listing and moves the current path. *)
Lemma setPath_unavailable_replaces_listing :
  let w := Toy.home_world in
  let w' := world_of (setPath "/nope" w) in
  QDir_isReadable (w_fs w) (@QDir_new Toy.platform "/nope") = false /\
  ~ (mDirectoryContents (w_model w') = mDirectoryContents (w_model w) /\
     path (w_model w') = path (w_model w)).
Proof.
  split; [reflexivity|].
  intros [Hl _]. vm_compute in Hl. discriminate Hl.
Qed.

(** ** [rename]: the two branches *)

(** A failed rename of a file leaves the world alone and reloads
    nothing. *)
Lemma rename_file_failure_no_reload `{P : Platform} (w : World) (r : Z)
    (newName : string) (fi : QFileInfo.t) :
  0 <= r ->
  mDirectoryContents (w_model w) !! Z.to_nat r = Some fi ->
  QFileInfo.isDir fi = false ->
  QFile_rename (QFileInfo.absoluteFilePath fi)
    (QFileInfo.absolutePath fi +:+ QDir_separator +:+ newName) (w_fs w)
  = (false, w_fs w) ->
  rename r newName w =
  (false, w,
   [EvDebug (Renaming r newName);
    FsRenameFile (QFileInfo.absoluteFilePath fi)
      (QFileInfo.absolutePath fi +:+ QDir_separator +:+ newName) false;
    EvDebug RenameReturnedError]).
Proof.
  intros Hr Hfi Hdir Hfail.
  assert (Hlt : r < count (w_model w)).
  { apply lookup_lt_Some in Hfi. unfold count. lia. }
  unfold rename, bind, qDebug, qWarning, emit, get_model, ret, fs_call. simpl.
  replace ((r <? 0) || (r >=? count (w_model w))) with false
    by (symmetry; apply orb_false_iff; lia).
  rewrite Hfi, Hdir. simpl. rewrite Hfail. simpl. by destruct w.
Qed.

(** A rename of a directory reloads once, whatever the primitive
    answers. *)
Lemma rename_directory_always_reloads `{P : Platform} (w : World) (r : Z)
    (newName : string) (fi : QFileInfo.t) :
  0 <= r ->
  mDirectoryContents (w_model w) !! Z.to_nat r = Some fi ->
  QFileInfo.isDir fi = true ->
  List.filter is_reset (events_of (rename r newName w)) = [EvModelReset] /\
  result_of (rename r newName w) =
    (QDir_rename (QFileInfo.absoluteFilePath fi)
       (QFileInfo.absolutePath fi +:+ QDir_separator +:+ newName) (w_fs w)).1.
Proof.
  intros Hr Hfi Hdir.
  assert (Hlt : r < count (w_model w)).
  { apply lookup_lt_Some in Hfi. unfold count. lia. }
  unfold rename, bind, qDebug, qWarning, emit, get_model, ret, fs_call. simpl.
  replace ((r <? 0) || (r >=? count (w_model w))) with false
    by (symmetry; apply orb_false_iff; lia).
  rewrite Hfi, Hdir. simpl.
  destruct (QDir_rename _ _ _) as [ok fs1]. simpl.
  rewrite refresh_run, setPath_run. unfold events_of, result_of. simpl.
  split; [|done].
  rewrite app_nil_r, List.filter_app. simpl.
  pose proof (reload_events_one_reset "" (mkQDir "") (loaded_listing fs1
     (QDir_new (path (w_model w))))) as [Hreset _].
  unfold reload_events in Hreset. simpl in Hreset.
  rewrite List.filter_app in Hreset. simpl in Hreset. exact Hreset.
Qed.

(** C2, at an input where the code departs from it.  Row 0 of the sample
    model is the directory "sub"; renaming it to "a.txt", a name that is
    taken, fails, and the listing is reloaded all the same: the model
    signals a reset and now shows a file that appeared in the
    meantime. *)
Theorem rename_directory_failure_reloads :
  let res := rename 0 "a.txt" Toy.stale_world in
  mDirectoryContents (w_model Toy.stale_world) !! 0%nat
    = Some (Toy.directory "/home" "sub") /\
  result_of res = false /\
  In (FsRenameDir "/home/sub" "/home/a.txt" false) (events_of res) /\
  List.filter is_reset (events_of res) = [EvModelReset] /\
  w_fs (world_of res) = w_fs Toy.stale_world /\
  mDirectoryContents (w_model (world_of res))
    <> mDirectoryContents (w_model Toy.stale_world).
Proof.
  split; [reflexivity|]. split; [reflexivity|].
  split; [vm_compute; tauto|]. split; [reflexivity|]. split; [reflexivity|].
  intros H. apply (f_equal length) in H. vm_compute in H. discriminate H.
Qed.

(** ** [rm]: what it attempts, what it reports *)

(** [rm] attempts every path, in order, then reloads the current
    directory once. *)
Lemma rm_attempts_every_path_then_reloads_once `{P : Platform}
    (paths : list string) (w : World) :
  let w1 := mkWorld (removals paths (w_fs w)).1 (w_model w) in
  events_of (rm paths w) = (removals paths (w_fs w)).2 ++ events_of (refresh w1) /\
  world_of (rm paths w) = world_of (refresh w1) /\
  removal_attempts (events_of (rm paths w)) = paths /\
  List.filter is_reset (events_of (rm paths w)) = [EvModelReset] /\
  List.filter is_scan (events_of (rm paths w))
    = [FsScan (QDir_new (path (w_model w)))].
Proof.
  intros w1. rewrite rm_run. fold w1. unfold events_of, world_of. simpl.
  split; [done|]. split; [done|].
  subst w1. rewrite refresh_run, setPath_run. simpl.
  rewrite removal_attempts_app, !List.filter_app.
  pose proof (removals_no_reset paths (w_fs w)) as [-> ->].
  rewrite removals_attempts.
  match goal with
  | |- context [reload_events ?p ?d ?l] =>
      pose proof (reload_events_one_reset p d l) as [Hr Hs];
      pose proof (removal_attempts_reload p d l) as Ha
  end.
  unfold reload_events in *. simpl in *.
  rewrite Ha, Hr, Hs, app_nil_r. done.
Qed.

(** The loop of [rm] writes its warning for the removals that succeeded,
    and for no other. *)
Lemma removals_warn_on_success `{P : Platform} (paths : list string)
    (fs : FileSystem) (p : string) :
  In (EvWarning (FailedToRemove p)) (removals paths fs).2 <->
  In (FsRemove p true) (removals paths fs).2.
Proof.
  revert fs. induction paths as [|q rest IH]; intros fs; simpl; [done|].
  destruct (QFile_remove q fs) as [ok fs1].
  specialize (IH fs1). destruct (removals rest fs1) as [fs2 evs]. simpl in *.
  destruct ok; simpl; split.
  - intros [H|[H|H]]; [done| |].
    + injection H as ->. by left.
    + right. right. by apply IH.
  - intros [H|[H|H]]; [|done|].
    + injection H as ->. right. by left.
    + right. right. by apply IH.
  - intros [H|H]; [done|]. right. by apply IH.
  - intros [H|H]; [congruence|]. right. by apply IH.
Qed.

(** C3, at an input where the code departs from it.  Removing a path
    that is not there fails, the reload follows, and no warning is
    written for the failure; removing a file that is there succeeds and
    is the case that writes "Failed to remove". *)
Theorem rm_failure_not_reported :
  let res := rm ["/home/missing.txt"%string] Toy.home_world in
  events_of res =
    FsRemove "/home/missing.txt" false
      :: reload_events "/home" (mkQDir "/home")
           (mDirectoryContents (w_model Toy.home_world)) /\
  List.filter is_warning (events_of res) = [] /\
  List.filter is_warning (events_of (rm ["/home/a.txt"%string] Toy.home_world))
    = [EvWarning (FailedToRemove "/home/a.txt")] /\
  In (FsRemove "/home/a.txt" true)
     (events_of (rm ["/home/a.txt"%string] Toy.home_world)).
Proof.
  split; [reflexivity|]. split; [reflexivity|]. split; [reflexivity|].
  vm_compute. tauto.
Qed.


(** * Beyond the claims *)

(** ** [Utils::pathsToHome] *)

Lemma rev_is_reverse {A : Type} (l : list A) : rev l = reverse l.
Proof. unfold reverse. apply rev_alt. Qed.

Section UtilsFacts.
Context `{H : HomeOps}.

Lemma up_chain_head (fs : FileSystem) (d : QDir) (c : list string) :
  up_chain fs d c -> head c = Some (QDir_path d).
Proof. by destruct 1. Qed.

Lemma up_chain_last (fs : FileSystem) (d : QDir) (c : list string) :
  up_chain fs d c ->
  exists top, last c = Some (QDir_path top) /\ QDir_cdUp fs top = None.
Proof.
  induction 1 as [d Hd|d d' l Hd Hc (top & Hl & Ht)].
  - by exists d.
  - exists top. split; [|done].
    destruct l as [|x l]; [done|]. exact Hl.
Qed.

(** The loop appends the chain of the directory it starts from. *)
Lemma cdUp_loop_chain (fuel : nat) (fs : FileSystem) (d : QDir)
    (acc l : list string) :
  cdUp_loop fuel fs d acc = Some l ->
  exists c, up_chain fs d c /\ l = acc ++ c.
Proof.
  revert d acc. induction fuel as [|fuel IH]; intros d acc; simpl; [done|].
  destruct (QDir_cdUp fs d) as [d'|] eqn:Hd.
  - intros Hl. destruct (IH _ _ Hl) as (c & Hc & ->).
    exists (QDir_path d :: c). split; [by eapply up_chain_step|].
    by rewrite <- app_assoc.
  - intros [= <-]. exists [QDir_path d]. split; [by constructor|done].
Qed.

(** Fuel above the measure of the start is enough, and more fuel
    changes nothing. *)
Lemma cdUp_loop_enough (mu : QDir -> nat) (fs : FileSystem) :
  (forall d d', QDir_cdUp fs d = Some d' -> (mu d' < mu d)%nat) ->
  forall fuel d acc, (mu d < fuel)%nat ->
  exists l, forall fuel', (fuel <= fuel')%nat -> cdUp_loop fuel' fs d acc = Some l.
Proof.
  intros Hmu. induction fuel as [|fuel IH]; intros d acc Hfuel; [lia|].
  destruct (QDir_cdUp fs d) as [d'|] eqn:Hd.
  - destruct (IH d' (acc ++ [QDir_path d])) as [l Hl].
    { specialize (Hmu _ _ Hd). lia. }
    exists l. intros [|fuel'] Hle; [lia|]. simpl. rewrite Hd. apply Hl. lia.
  - exists (acc ++ [QDir_path d]). intros [|fuel'] Hle; [lia|]. simpl.
    by rewrite Hd.
Qed.

(** The directory the walk starts from is the home directory or the
    root. *)
Lemma pathsToHome_unfold (fuel : nat) (fs : FileSystem)
    (paths : list string) (evs : list UtilsEvent) :
  pathsToHome fuel fs = Some (paths, evs) ->
  exists c,
    cdUp_loop fuel fs (start_directory fs (home_or_root fs).1).1 [] = Some c /\
    paths = rev c /\
    evs = (home_or_root fs).2 ++ (start_directory fs (home_or_root fs).1).2
          ++ [DebugPaths paths].
Proof.
  unfold pathsToHome.
  destruct (home_or_root fs) as [pathToHome ev1].
  destruct (start_directory fs pathToHome) as [d ev2] eqn:Hstart. simpl.
  destruct (cdUp_loop fuel fs d []) as [c|] eqn:Hc; [|done].
  intros Heq. injection Heq as <- <-. exists c. by rewrite Hstart.
Qed.

End UtilsFacts.

(** X1. Where every successful [cdUp] lowers some measure of the
    directory, [pathsToHome] returns once the fuel exceeds the measure
    of the home directory and of the root, and more fuel gives the same
    paths and events. *)
Theorem pathsToHome_returns `{H : HomeOps} (mu : QDir -> nat)
    (fs : FileSystem) (fuel : nat) :
  (forall d d', QDir_cdUp fs d = Some d' -> (mu d' < mu d)%nat) ->
  (mu (QDir_new (QDir_homePath fs)) < fuel)%nat ->
  (mu (QDir_new "/") < fuel)%nat ->
  exists res,
    forall fuel', (fuel <= fuel')%nat -> pathsToHome fuel' fs = Some res.
Proof.
  intros Hmu Hhome Hroot. unfold pathsToHome.
  destruct (home_or_root fs) as [pathToHome ev1] eqn:Hh.
  destruct (start_directory fs pathToHome) as [d ev2] eqn:Hs.
  assert (Hd : (mu d < fuel)%nat).
  { unfold start_directory in Hs. unfold home_or_root in Hh.
    destruct (negb (QDir_isReadable fs (QDir_new pathToHome)));
      injection Hs as <- <-; [done|].
    destruct (String.eqb (QDir_homePath fs) "" || negb (QDir_exists fs (QDir_homePath fs)));
      injection Hh as <- <-; done. }
  destruct (cdUp_loop_enough mu fs Hmu fuel d [] Hd) as [l Hl].
  exists (rev l, ev1 ++ ev2 ++ [DebugPaths (rev l)]).
  intros fuel' Hle. by rewrite (Hl fuel' Hle).
Qed.

(** X2. The list [pathsToHome] returns is not empty; read from its end
    it is the walk up from the home directory, or from the root: it ends
    with the path of that directory, every path is followed by the path
    [cdUp] was called on to reach it, and it begins with a directory
    that [cdUp] does not leave. *)
Theorem pathsToHome_walk `{H : HomeOps} (fuel : nat) (fs : FileSystem)
    (paths : list string) (evs : list UtilsEvent) :
  pathsToHome fuel fs = Some (paths, evs) ->
  exists d,
    (d = QDir_new (QDir_homePath fs) \/ d = QDir_new "/") /\
    up_chain fs d (rev paths) /\
    last paths = Some (QDir_path d) /\
    (exists top, head paths = Some (QDir_path top) /\ QDir_cdUp fs top = None).
Proof.
  intros Hres. destruct (pathsToHome_unfold _ _ _ _ Hres) as (c & Hloop & -> & _).
  destruct (cdUp_loop_chain _ _ _ _ _ Hloop) as (c' & Hchain & ->). simpl.
  exists (start_directory fs (home_or_root fs).1).1.
  rewrite rev_involutive. split; [|split; [done|split]].
  - unfold start_directory, home_or_root.
    destruct (String.eqb (QDir_homePath fs) "" || negb (QDir_exists fs (QDir_homePath fs)));
      simpl; destruct (negb (QDir_isReadable fs _)); simpl; auto.
  - rewrite rev_is_reverse, last_reverse. by eapply up_chain_head.
  - rewrite rev_is_reverse, head_reverse. by eapply up_chain_last.
Qed.

(** X3. Where the walk starts and what is reported.  With a home path
    that is not empty, exists and can be read, the list ends with the
    path of the home directory and nothing is warned of.  With a home
    path that is empty or does not exist, a warning names it and the
    list ends with the path of the root.  With a home path that exists
    and cannot be read, a warning names it and the list ends with the
    path of the root. *)
Theorem pathsToHome_start `{H : HomeOps} (fuel : nat) (fs : FileSystem)
    (paths : list string) (evs : list UtilsEvent) :
  pathsToHome fuel fs = Some (paths, evs) ->
  let home := QDir_homePath fs in
  (home <> ""%string -> QDir_exists fs home = true ->
   QDir_isReadable fs (QDir_new home) = true ->
   last paths = Some (QDir_cleanedPath home) /\ evs = [DebugPaths paths]) /\
  (home = ""%string \/ QDir_exists fs home = false ->
   last paths = Some (QDir_cleanedPath "/") /\
   head evs = Some (WarnHomeEmptyOrNonexistent home)) /\
  (home <> ""%string -> QDir_exists fs home = true ->
   QDir_isReadable fs (QDir_new home) = false ->
   last paths = Some (QDir_cleanedPath "/") /\
   evs = [WarnHomeNotReadable home; DebugPaths paths]).
Proof.
  intros Hres home.
  destruct (pathsToHome_unfold _ _ _ _ Hres) as (c & Hloop & Hpaths & Hevs).
  destruct (cdUp_loop_chain _ _ _ _ _ Hloop) as (c' & Hchain & ->). simpl in *.
  assert (Hlast : last paths = Some (QDir_path (start_directory fs (home_or_root fs).1).1)).
  { rewrite Hpaths, rev_is_reverse, last_reverse. by eapply up_chain_head. }
  clear Hres Hloop Hchain Hpaths.
  unfold start_directory, home_or_root in *. fold home in Hlast, Hevs.
  split; [|split].
  - intros Hne Hex Hread.
    apply String.eqb_neq in Hne. rewrite Hne, Hex in *. simpl in *.
    rewrite Hread in *. simpl in *. done.
  - intros Hbad.
    assert (Hc : String.eqb home "" || negb (QDir_exists fs home) = true).
    { destruct Hbad as [Hb | Hb]; rewrite Hb; [done|]. apply orb_true_r. }
    rewrite Hc in *. simpl in *. split; [|by rewrite Hevs].
    by destruct (negb (QDir_isReadable fs (QDir_new "/"))).
  - intros Hne Hex Hread.
    apply String.eqb_neq in Hne. rewrite Hne, Hex in *. simpl in *.
    rewrite Hread in *. simpl in *. done.
Qed.

Lemma toy_dirname_shorter (s d : string) :
  ToyHome.dirname s = Some d -> (String.length d < String.length s)%nat.
Proof.
  revert d. induction s as [|c rest IH]; intros d; simpl; [done|].
  destruct (ToyHome.dirname rest) as [d'|].
  - intros [= <-]. simpl. specialize (IH d' eq_refl). lia.
  - destruct (Ascii.eqb c "/"); [|done]. intros [= <-]. simpl. lia.
Qed.

Lemma toy_cdUp_shorter (fs : Toy.FS) (d d' : QDir) :
  ToyHome.cdUp fs d = Some d' ->
  (String.length (QDir_path d') < String.length (QDir_path d))%nat.
Proof.
  unfold ToyHome.cdUp, ToyHome.parent.
  destruct (String.eqb (QDir_path d) "/") eqn:Hroot; [done|].
  apply String.eqb_neq in Hroot.
  destruct (ToyHome.dirname (QDir_path d)) as [q|] eqn:Hq; [|done].
  pose proof (toy_dirname_shorter _ _ Hq) as Hlen.
  destruct q as [|a q].
  - destruct (Toy.is_directory fs "/"); [|done]. intros [= <-]. simpl.
    destruct (QDir_path d) as [|c [|c' rest]]; simpl in *; [lia| |lia].
    destruct (Ascii.eqb_spec c "/") as [->|Hc]; done.
  - destruct (Toy.is_directory fs (String a q)); [|done]. by intros [= <-].
Qed.

Lemma pathsToHome_returns_witness :
  let mu := fun d : QDir => String.length (QDir_path d) in
  (forall d d', ToyHome.cdUp Toy.home_fs d = Some d' -> (mu d' < mu d)%nat) /\
  (mu (mkQDir "/home/sub") < 10)%nat /\
  (mu (mkQDir "/") < 10)%nat /\
  exists res,
    forall fuel', (10 <= fuel')%nat ->
      @pathsToHome _ (ToyHome.ops "/home/sub") fuel' Toy.home_fs = Some res.
Proof.
  intros mu.
  assert (H1 : forall d d', ToyHome.cdUp Toy.home_fs d = Some d' -> (mu d' < mu d)%nat)
    by (intros d d'; apply toy_cdUp_shorter).
  assert (H2 : (mu (mkQDir "/home/sub") < 10)%nat) by (vm_compute; lia).
  assert (H3 : (mu (mkQDir "/") < 10)%nat) by (vm_compute; lia).
  split; [exact H1|]. split; [exact H2|]. split; [exact H3|].
  exact (@pathsToHome_returns _ (ToyHome.ops "/home/sub") mu Toy.home_fs 10 H1 H2 H3).
Defined.

Lemma pathsToHome_walk_witness :
  @pathsToHome _ (ToyHome.ops "/home/sub") 10 Toy.home_fs
    = Some (["/"; "/home"; "/home/sub"]%string,
            [DebugPaths ["/"; "/home"; "/home/sub"]%string]) /\
  exists d,
    (d = mkQDir "/home/sub" \/ d = mkQDir "/") /\
    @up_chain _ (ToyHome.ops "/home/sub") Toy.home_fs d
      (rev ["/"; "/home"; "/home/sub"]%string) /\
    last ["/"; "/home"; "/home/sub"]%string = Some (QDir_path d) /\
    (exists top, head ["/"; "/home"; "/home/sub"]%string = Some (QDir_path top) /\
                 ToyHome.cdUp Toy.home_fs top = None).
Proof.
  assert (H : @pathsToHome _ (ToyHome.ops "/home/sub") 10 Toy.home_fs
              = Some (["/"; "/home"; "/home/sub"]%string,
                      [DebugPaths ["/"; "/home"; "/home/sub"]%string]))
    by reflexivity.
  split; [exact H|].
  exact (@pathsToHome_walk _ (ToyHome.ops "/home/sub") 10 Toy.home_fs _ _ H).
Defined.

Lemma pathsToHome_start_witness :
  @pathsToHome _ (ToyHome.ops "/home/a.txt") 10 Toy.home_fs
    = Some (["/"%string], [WarnHomeNotReadable "/home/a.txt"; DebugPaths ["/"%string]]) /\
  let home := "/home/a.txt"%string in
  let paths := ["/"%string] in
  let evs := [WarnHomeNotReadable "/home/a.txt"; DebugPaths ["/"%string]] in
  (home <> ""%string -> ToyHome.exists_name Toy.home_fs home = true ->
   Toy.is_directory Toy.home_fs (Toy.cleanedPath home) = true ->
   last paths = Some (Toy.cleanedPath home) /\ evs = [DebugPaths paths]) /\
  (home = ""%string \/ ToyHome.exists_name Toy.home_fs home = false ->
   last paths = Some (Toy.cleanedPath "/") /\
   head evs = Some (WarnHomeEmptyOrNonexistent home)) /\
  (home <> ""%string -> ToyHome.exists_name Toy.home_fs home = true ->
   Toy.is_directory Toy.home_fs (Toy.cleanedPath home) = false ->
   last paths = Some (Toy.cleanedPath "/") /\
   evs = [WarnHomeNotReadable home; DebugPaths paths]).
Proof.
  assert (H : @pathsToHome _ (ToyHome.ops "/home/a.txt") 10 Toy.home_fs
              = Some (["/"%string],
                      [WarnHomeNotReadable "/home/a.txt"; DebugPaths ["/"%string]]))
    by reflexivity.
  split; [exact H|].
  exact (@pathsToHome_start _ (ToyHome.ops "/home/a.txt") 10 Toy.home_fs _ _ H).
Defined.

(** ** The role table of the constructor *)

Lemma populate_fold_lookup (l : list (Z * string)) (acc : gmap string Z)
    (k : string) (r : Z) :
  NoDup (l.*2) ->
  foldl (fun acc kv => <[kv.2 := kv.1]> acc) acc l !! k = Some r <->
  (r, k) ∈ l \/ (~ k ∈ snd <$> l) /\ acc !! k = Some r.
Proof.
  revert acc. induction l as [|[r0 k0] l IH]; intros acc Hnd; simpl.
  - split; [intros Hk; right; split; [apply not_elem_of_nil|done]|].
    intros [Hin|[_ Hk]]; [by apply elem_of_nil in Hin|done].
  - apply NoDup_cons in Hnd. destruct Hnd as [Hk0 Hnd]. rewrite (IH _ Hnd).
    rewrite elem_of_cons, not_elem_of_cons, lookup_insert.
    case_decide as Hk.
    + subst k0. split.
      * intros [Hin|[_ Hr]].
        -- exfalso. apply Hk0. apply list_elem_of_fmap. by exists (r, k).
        -- left. left. congruence.
      * intros [[Heq|Hin]|[[Hne _] _]]; [|left; done|done].
        right. split; [done|]. congruence.
    + split.
      * intros [Hin|[Hnot Hr]]; [left; by right|]. right. done.
      * intros [[Heq|Hin]|[[_ Hnot] Hr]]; [congruence|by left|by right].
Qed.

(** X4. Where no two roles share a name, the reverse mapping the
    constructor builds is the inverse of the role names: a key maps to a
    role exactly when the role is named by the key. *)
Theorem populate_reverse_inverse (roles : gmap Z string) (k : string) (r : Z) :
  NoDup (map_to_list roles).*2 ->
  populate_reverse roles !! k = Some r <-> roles !! r = Some k.
Proof.
  intros Hnd. unfold populate_reverse.
  rewrite (populate_fold_lookup _ _ _ _ Hnd), elem_of_map_to_list.
  rewrite lookup_empty. split; [intros [Hk|[_ Hk]]; done|by left].
Qed.

Lemma DirModel_roles_names_differ : NoDup (map_to_list DirModel_roles).*2.
Proof. apply (bool_decide_unpack _). vm_compute. exact I. Qed.

Lemma populate_reverse_inverse_witness :
  NoDup (map_to_list DirModel_roles).*2 /\
  (populate_reverse DirModel_roles !! "fileSize" = Some FileSizeRole <->
   DirModel_roles !! FileSizeRole = Some "fileSize"%string).
Proof.
  split; [exact DirModel_roles_names_differ|].
  exact (populate_reverse_inverse DirModel_roles "fileSize" FileSizeRole
           DirModel_roles_names_differ).
Defined.

Lemma DirModel_roles_over_default :
  DirModel_roles = DirModel_roles_over QAbstractItemModel_roleNames.
Proof. reflexivity. Qed.

(** X5. Whatever role names the base class starts with, the table
    handed to [setRoleNames] names the eight roles of the class, so it
    has at least eight entries, while [IsFileRole - FileNameRole] is
    seven: the equality asserted at line 80 never holds. *)
Theorem constructor_assertion_never_holds (base : gmap Z string) :
  (8 <= size (DirModel_roles_over base))%nat /\
  IsFileRole - FileNameRole = 7 /\
  Z.of_nat (size (DirModel_roles_over base)) <> IsFileRole - FileNameRole.
Proof.
  assert (Hsize : (8 <= size (DirModel_roles_over base))%nat).
  { set (keys := ({[FileNameRole; CreationDateRole; ModifiedDateRole; FileSizeRole;
                    IconSourceRole; FilePathRole; IsDirRole; IsFileRole]} : gset Z)).
    assert (Hsub : keys ⊆ dom (DirModel_roles_over base)).
    { unfold keys, DirModel_roles_over. rewrite !dom_insert_L.
      intros x Hx. rewrite !elem_of_union, !elem_of_singleton in Hx.
      rewrite !elem_of_union, !elem_of_singleton. tauto. }
    apply subseteq_size in Hsub. rewrite size_dom in Hsub.
    assert (Hk : size keys = 8%nat) by (vm_compute; reflexivity).
    lia. }
  split; [done|]. split; [reflexivity|].
  replace (IsFileRole - FileNameRole) with 7 by reflexivity. lia.
Qed.

(** ** [data]: more on what a row reads *)

Lemma role_in_range_cases (role : Z) :
  role_in_range role ->
  role = FileNameRole \/ role = CreationDateRole \/ role = ModifiedDateRole \/
  role = FileSizeRole \/ role = IconSourceRole \/ role = FilePathRole \/
  role = IsDirRole \/ role = IsFileRole.
Proof.
  unfold role_in_range.
  cbv [FileNameRole CreationDateRole ModifiedDateRole FileSizeRole
       IconSourceRole FilePathRole IsDirRole IsFileRole Qt_UserRole]. lia.
Qed.

(** Within the range of the roles the [switch] finds its case: it
    writes no warning and returns a value. *)
Lemma data_switch_in_range (fi : QFileInfo.t) (role : Z) :
  role_in_range role ->
  (data_switch fi role).2 = [] /\ (data_switch fi role).1 <> QVariant_invalid.
Proof.
  intros Hr. apply role_in_range_cases in Hr.
  destruct Hr as [->|[->|[->|[->|[->|[->|[->| ->]]]]]]]; simpl; try done.
  unfold iconSource. split; [done|].
  destruct (endsWith _ _ || endsWith _ _); [done|].
  by destruct (QFileInfo.isDir fi).
Qed.

Lemma constructed_roles_of_key (key : string) :
  In key role_keys ->
  exists role, populate_reverse DirModel_roles !! key = Some role /\
               role_in_range role.
Proof.
  unfold role_keys. simpl.
  intros [<-|[<-|[<-|[<-|[<-|[<-|[<-|[<-|[]]]]]]]]];
    (eexists; split; [vm_compute; reflexivity|]);
    unfold role_in_range;
    cbv [FileNameRole IsFileRole Qt_UserRole]; lia.
Qed.

(** X6. On a model with the constructor's role table, [data] returns
    the invalid value exactly when the key is none of the eight role
    keys or the row is outside [0, rowCount): every role of every row in
    range has a value. *)
Theorem data_invalid_iff (m : DirModel) (r : Z) (stringRole : string) :
  constructed_roles m ->
  (data m r stringRole).1 = QVariant_invalid <->
  (~ In stringRole role_keys \/ r < 0 \/ rowCount m <= r).
Proof.
  intros Hroles. split.
  - intros Hinv.
    destruct (in_dec string_dec stringRole role_keys) as [Hkey|Hkey]; [|by left].
    right.
    destruct (Z.lt_ge_cases r 0) as [Hneg|Hpos]; [by left|].
    destruct (Z.lt_ge_cases r (rowCount m)) as [Hin|Hout]; [|by right].
    exfalso.
    destruct (constructed_roles_of_key _ Hkey) as (role & Hrole & Hrange).
    destruct (in_range_lookup m r (conj Hpos Hin)) as [fi Hfi].
    rewrite (data_in_range m r role stringRole fi) in Hinv;
      [|by rewrite Hroles|done|done|done].
    by apply (data_switch_in_range fi role Hrange).
  - intros [Hkey|Hrow].
    + by apply data_key_outside_roles.
    + by apply data_row_out_of_range.
Qed.

Lemma data_invalid_iff_witness :
  constructed_roles (w_model Toy.home_world) /\
  ((data (w_model Toy.home_world) 3 "isDir").1 = QVariant_invalid <->
   (~ In "isDir"%string role_keys \/ 3 < 0 \/ rowCount (w_model Toy.home_world) <= 3)).
Proof.
  assert (H : constructed_roles (w_model Toy.home_world)) by reflexivity.
  split; [exact H|].
  exact (data_invalid_iff (w_model Toy.home_world) 3 "isDir" H).
Defined.

(** X7. Whatever the role table holds, the only thing [data] ever
    writes is the warning of an out-of-range role, for a key the table
    sends outside the roles of the class; the warning of an unknown role,
    in the [default] of the [switch], is never written. *)
Theorem data_only_warns_out_of_range_role (m : DirModel) (r : Z)
    (stringRole : string) (e : Event) :
  In e (data m r stringRole).2 ->
  exists role,
    mRoleMapping m !! stringRole = Some role /\
    ~ role_in_range role /\
    e = EvWarning (OutOfRangeRole role).
Proof.
  unfold data.
  destruct (mRoleMapping m !! stringRole) as [role|]; [|done].
  unfold data_index.
  destruct ((role <? FileNameRole) || (role >? IsFileRole)) eqn:Hrange.
  - simpl. intros [<-|[]]. exists role. split; [done|]. split; [|done].
    unfold role_in_range. apply orb_true_iff in Hrange. lia.
  - destruct ((row (index m r 0) <? 0) || (row (index m r 0) >=? count m)); [done|].
    destruct (negb (column (index m r 0) =? 0)); [done|].
    destruct (mDirectoryContents m !! Z.to_nat (row (index m r 0))) as [fi|]; [|done].
    assert (Hr : role_in_range role).
    { unfold role_in_range. apply orb_false_iff in Hrange. lia. }
    by rewrite (proj1 (data_switch_in_range fi role Hr)).
Qed.

Lemma data_only_warns_out_of_range_role_witness :
  In (EvWarning (OutOfRangeRole 0)) (data (w_model Toy.home_world) 0 "display").2 /\
  exists role,
    mRoleMapping (w_model Toy.home_world) !! "display" = Some role /\
    ~ role_in_range role /\
    EvWarning (OutOfRangeRole 0) = EvWarning (OutOfRangeRole role).
Proof.
  assert (H : In (EvWarning (OutOfRangeRole 0))
                (data (w_model Toy.home_world) 0 "display").2)
    by (vm_compute; tauto).
  split; [exact H|].
  exact (data_only_warns_out_of_range_role (w_model Toy.home_world) 0 "display" _ H).
Defined.

(** X8. [data(index, role)] returns a value exactly for a role of the
    class, a row in range and column 0; any other index or role reads
    the invalid value. *)
Theorem data_index_valid_iff (m : DirModel) (idx : QModelIndex) (role : Z) :
  (data_index m idx role).1 <> QVariant_invalid <->
  (role_in_range role /\ 0 <= row idx < rowCount m /\ column idx = 0).
Proof.
  unfold data_index, role_in_range, rowCount.
  destruct ((role <? FileNameRole) || (role >? IsFileRole)) eqn:Hrange.
  { apply orb_true_iff in Hrange. simpl. split; [done|lia]. }
  apply orb_false_iff in Hrange.
  destruct ((row idx <? 0) || (row idx >=? count m)) eqn:Hrow.
  { apply orb_true_iff in Hrow. simpl. split; [done|lia]. }
  apply orb_false_iff in Hrow.
  destruct (column idx =? 0) eqn:Hcol; simpl.
  - destruct (mDirectoryContents m !! Z.to_nat (row idx)) as [fi|] eqn:Hfi.
    + split; [lia|]. intros _. apply data_switch_in_range.
      unfold role_in_range. lia.
    + apply lookup_ge_None in Hfi. unfold count in Hrow. lia.
  - split; [done|]. lia.
Qed.

(** ** The icon of an entry *)

Lemma substring_all (s : string) : substring 0 (String.length s) s = s.
Proof. induction s as [|c s IH]; simpl; [done|]. by rewrite IH. Qed.

Lemma length_append (s t : string) :
  String.length (s +:+ t) = (String.length s + String.length t)%nat.
Proof. induction s as [|c s IH]; simpl; [done|]. by rewrite IH. Qed.

Lemma substring_skip (pre t : string) (k : nat) :
  substring (String.length pre) k (pre +:+ t) = substring 0 k t.
Proof. induction pre as [|c pre IH]; simpl; [done|]. exact IH. Qed.

Lemma substring_split (s : string) (n : nat) :
  (n <= String.length s)%nat ->
  exists pre, s = pre +:+ substring n (String.length s - n) s.
Proof.
  revert n. induction s as [|c s IH]; intros n Hn.
  - exists ""%string. simpl in Hn. by replace n with 0%nat by lia.
  - destruct n as [|n].
    + exists ""%string. simpl. by rewrite substring_all.
    + simpl in Hn. destruct (IH n) as [pre Hpre]; [lia|].
      exists (String c pre).
      change (String c s = String c (pre +:+ substring n (String.length s - n) s)).
      by rewrite <- Hpre.
Qed.

(** [endsWith] is what its name says. *)
Lemma endsWith_iff (s suffix : string) :
  endsWith s suffix = true <-> exists pre, s = pre +:+ suffix.
Proof.
  unfold endsWith. rewrite andb_true_iff, Nat.leb_le, String.eqb_eq. split.
  - intros [Hlen Hsub].
    destruct (substring_split s (String.length s - String.length suffix)) as [pre Hpre];
      [lia|].
    exists pre.
    replace (String.length s - (String.length s - String.length suffix))%nat
      with (String.length suffix) in Hpre by lia.
    by rewrite Hsub in Hpre.
  - intros [pre ->]. rewrite length_append. split; [lia|].
    replace (String.length pre + String.length suffix - String.length suffix)%nat
      with (String.length pre) by lia.
    by rewrite substring_skip, substring_all.
Qed.

(** X9. For a row in range, the icon role reads the local-file URL of
    the entry as soon as its name ends in ".jpg" or ".png", a directory
    of such a name included; any other directory reads the directory
    icon and any other entry the document icon. *)
Theorem data_iconSource (m : DirModel) (r : Z) :
  constructed_roles m ->
  0 <= r < rowCount m ->
  exists fi,
    mDirectoryContents m !! Z.to_nat r = Some fi /\
    ((exists pre, QFileInfo.fileName fi = pre +:+ ".jpg" \/
                  QFileInfo.fileName fi = pre +:+ ".png") ->
     (data m r "iconSource").1 = QVariant_url (fromLocalFile (QFileInfo.filePath fi))) /\
    (~ (exists pre, QFileInfo.fileName fi = pre +:+ ".jpg" \/
                    QFileInfo.fileName fi = pre +:+ ".png") ->
     (data m r "iconSource").1 =
       QVariant_string (if QFileInfo.isDir fi
                        then "image://theme/icon-m-common-directory"
                        else "image://theme/icon-m-content-document")).
Proof.
  intros Hroles Hr.
  destruct (in_range_lookup m r Hr) as [fi Hfi]. exists fi. split; [done|].
  assert (Hdata : (data m r "iconSource").1 = iconSource fi).
  { rewrite (data_in_range m r IconSourceRole "iconSource" fi); [done| |done|lia|done].
    rewrite Hroles. vm_compute. reflexivity. }
  rewrite Hdata. unfold iconSource.
  destruct (endsWith (QFileInfo.fileName fi) ".jpg") eqn:Hjpg;
    destruct (endsWith (QFileInfo.fileName fi) ".png") eqn:Hpng; simpl.
  1-3: split; [done|]; intros Hno; exfalso; apply Hno.
  - apply endsWith_iff in Hjpg as [pre Hpre]. exists pre. by left.
  - apply endsWith_iff in Hjpg as [pre Hpre]. exists pre. by left.
  - apply endsWith_iff in Hpng as [pre Hpre]. exists pre. by right.
  - split.
    + intros [pre [Hpre|Hpre]].
      * assert (Hc : endsWith (QFileInfo.fileName fi) ".jpg" = true)
          by (apply endsWith_iff; by exists pre). congruence.
      * assert (Hc : endsWith (QFileInfo.fileName fi) ".png" = true)
          by (apply endsWith_iff; by exists pre). congruence.
    + intros _. by destruct (QFileInfo.isDir fi).
Qed.

Lemma data_iconSource_witness :
  constructed_roles (w_model Toy.home_world) /\
  0 <= 0 < rowCount (w_model Toy.home_world) /\
  exists fi,
    mDirectoryContents (w_model Toy.home_world) !! Z.to_nat 0 = Some fi /\
    ((exists pre, QFileInfo.fileName fi = pre +:+ ".jpg" \/
                  QFileInfo.fileName fi = pre +:+ ".png") ->
     (data (w_model Toy.home_world) 0 "iconSource").1
       = QVariant_url (fromLocalFile (QFileInfo.filePath fi))) /\
    (~ (exists pre, QFileInfo.fileName fi = pre +:+ ".jpg" \/
                    QFileInfo.fileName fi = pre +:+ ".png") ->
     (data (w_model Toy.home_world) 0 "iconSource").1 =
       QVariant_string (if QFileInfo.isDir fi
                        then "image://theme/icon-m-common-directory"
                        else "image://theme/icon-m-content-document")).
Proof.
  assert (H1 : constructed_roles (w_model Toy.home_world)) by reflexivity.
  assert (H2 : 0 <= 0 < rowCount (w_model Toy.home_world))
    by (vm_compute; split; congruence).
  split; [exact H1|]. split; [exact H2|].
  exact (data_iconSource (w_model Toy.home_world) 0 H1 H2).
Defined.

(** ** The comparator *)

(** X10. [fileCompare] puts a directory before an entry that is not
    one, whatever the names and the collation; and it is a comparator
    [std::sort] accepts exactly when "collates before" is a strict weak
    order on names. *)
Theorem fileCompare_legal_iff `{P : Platform} :
  (forall a b, QFileInfo.isDir a = true -> QFileInfo.isDir b = false ->
               fileCompare a b = true /\ fileCompare b a = false) /\
  (strict_weak_order fileCompare <-> collation_contract).
Proof.
  split.
  - intros a b Ha Hb. unfold fileCompare. by rewrite Ha, Hb.
  - split; [|apply fileCompare_strict_weak_order].
    intros (Hirr & Htr & Hneg).
    pose (f := fun name : string => QFileInfo.mk name "" "" "" false 0 0 0).
    split; [|split].
    + intros a. exact (Hirr (f a)).
    + intros a b c. exact (Htr (f a) (f b) (f c)).
    + intros a b c. exact (Hneg (f a) (f b) (f c)).
Qed.

(** ** [setPath]: what a load keeps and what it signals *)

Lemma filter_debug_contents (f : Event -> bool) (l : list QFileInfo.t) :
  (forall d, f (EvDebug d) = false) ->
  List.filter f (map (fun fi => EvDebug (ContentsEntry (QFileInfo.fileName fi))) l) = [].
Proof.
  intros Hf. induction l as [|fi rest IH]; simpl; [done|]. by rewrite Hf.
Qed.

(** X11. The listing [setPath] builds is a rearrangement of the entries
    of the walk whose names do not begin with ".": none is lost, none
    is doubled, and [rowCount] is their number. *)
Theorem setPath_rowCount `{P : Platform} (w : World) (pathName : string) :
  std_sort_contract -> collation_contract ->
  let m := w_model (world_of (setPath pathName w)) in
  let visible :=
    List.filter (fun fi => negb (is_hidden (QFileInfo.fileName fi)))
      (QDirIterator_entries (w_fs w) (QDir_new pathName)) in
  Permutation (mDirectoryContents m) visible /\
  rowCount m = Z.of_nat (length visible).
Proof.
  intros Hsort Hcoll m visible.
  assert (Hperm : Permutation (mDirectoryContents m) visible).
  { subst m visible. rewrite setPath_run. simpl. by apply loaded_listing_perm. }
  split; [done|]. unfold rowCount, count. by rewrite Hperm.
Qed.

Lemma setPath_rowCount_witness :
  @std_sort_contract Toy.platform /\ @collation_contract Toy.platform /\
  let m := w_model (world_of (setPath "/home" Toy.fresh_world)) in
  let visible :=
    List.filter (fun fi => negb (is_hidden (QFileInfo.fileName fi)))
      (Toy.entries Toy.home_fs (mkQDir "/home")) in
  Permutation (mDirectoryContents m) visible /\
  rowCount m = Z.of_nat (length visible).
Proof.
  split; [exact toy_sort_contract|]. split; [exact toy_collation_contract|].
  exact (setPath_rowCount Toy.fresh_world "/home"
           toy_sort_contract toy_collation_contract).
Defined.

(** X12. A load leaves nothing of the load before it: [setPath] after
    another [setPath] gives the result, the world and the events it
    gives without the other. *)
Theorem setPath_overwrites `{P : Platform} (w : World) (p1 p2 : string) :
  setPath p2 (world_of (setPath p1 w)) = setPath p2 w.
Proof. by rewrite !setPath_run. Qed.


(** ** [rename] and [rm]: the whole of their effect *)

(** [rename] on a row in range, in one step. *)
Lemma rename_run `{P : Platform} (w : World) (r : Z) (newName : string)
    (fi : QFileInfo.t) :
  0 <= r ->
  mDirectoryContents (w_model w) !! Z.to_nat r = Some fi ->
  let src := QFileInfo.absoluteFilePath fi in
  let target := QFileInfo.absolutePath fi +:+ QDir_separator +:+ newName in
  rename r newName w =
  if QFileInfo.isDir fi then
    let '(ok, fs1) := QDir_rename src target (w_fs w) in
    let w1 := mkWorld fs1 (w_model w) in
    (ok, world_of (refresh w1),
     [EvDebug (Renaming r newName); FsRenameDir src target ok]
       ++ events_of (refresh w1))
  else
    let '(ok, fs1) := QFile_rename src target (w_fs w) in
    let w1 := mkWorld fs1 (w_model w) in
    if ok then
      (true, world_of (refresh w1),
       [EvDebug (Renaming r newName); FsRenameFile src target true]
         ++ events_of (refresh w1))
    else
      (false, w1,
       [EvDebug (Renaming r newName); FsRenameFile src target false;
        EvDebug RenameReturnedError]).
Proof.
  intros Hr Hfi src target.
  assert (Hlt : r < count (w_model w)).
  { apply lookup_lt_Some in Hfi. unfold count. lia. }
  unfold rename, bind, qDebug, qWarning, emit, get_model, ret, fs_call. simpl.
  replace ((r <? 0) || (r >=? count (w_model w))) with false
    by (symmetry; apply orb_false_iff; lia).
  rewrite Hfi. fold src target.
  destruct (QFileInfo.isDir fi); simpl.
  - destruct (QDir_rename src target (w_fs w)) as [ok fs1]. simpl.
    destruct (refresh _) as [[[] w2] e2]. simpl. by rewrite app_nil_r.
  - destruct (QFile_rename src target (w_fs w)) as [ok fs1]. simpl.
    destruct ok; simpl; [|done].
    destruct (refresh _) as [[[] w2] e2]. simpl. by rewrite app_nil_r.
Qed.

(** X14. For a row in range [rename] calls one rename primitive, the
    one of the kind of the entry, from the entry to the new name in the
    directory of the entry; it returns the answer of that call and
    leaves the file system the call left.  It reloads once when the
    entry is a directory or the call succeeded, and then shows the
    current directory as the call left it; else it reloads nothing and
    keeps the model. *)
Theorem rename_in_range `{P : Platform} (w : World) (r : Z) (newName : string)
    (fi : QFileInfo.t) :
  0 <= r ->
  mDirectoryContents (w_model w) !! Z.to_nat r = Some fi ->
  let src := QFileInfo.absoluteFilePath fi in
  let target := QFileInfo.absolutePath fi +:+ QDir_separator +:+ newName in
  let prim := if QFileInfo.isDir fi then QDir_rename src target (w_fs w)
              else QFile_rename src target (w_fs w) in
  let res := rename r newName w in
  let dir := QDir_new (path (w_model w)) in
  result_of res = prim.1 /\
  w_fs (world_of res) = prim.2 /\
  List.filter is_rename (events_of res)
    = [if QFileInfo.isDir fi then FsRenameDir src target prim.1
       else FsRenameFile src target prim.1] /\
  List.filter is_reset (events_of res)
    = (if QFileInfo.isDir fi || prim.1 then [EvModelReset] else []) /\
  w_model (world_of res)
    = (if QFileInfo.isDir fi || prim.1
       then mkDirModel dir (loaded_listing prim.2 dir) (mRoleMapping (w_model w))
       else w_model w).
Proof.
  intros Hr Hfi src target prim res dir. subst res.
  rewrite (rename_run w r newName fi Hr Hfi). fold src target. subst prim.
  assert (Hreload : forall fs1,
    let w1 := mkWorld fs1 (w_model w) in
    world_of (refresh w1)
      = mkWorld fs1 (mkDirModel dir (loaded_listing fs1 dir) (mRoleMapping (w_model w))) /\
    List.filter is_rename (events_of (refresh w1)) = [] /\
    List.filter is_reset (events_of (refresh w1)) = [EvModelReset]).
  { intros fs1 w1. subst w1. rewrite refresh_run, setPath_run.
    unfold events_of, world_of, reload_events. simpl.
    rewrite !List.filter_app, !filter_debug_contents by done. done. }
  destruct (QFileInfo.isDir fi); simpl.
  - destruct (QDir_rename src target (w_fs w)) as [ok fs1]. simpl.
    destruct (Hreload fs1) as (Hw & Hren & Hres).
    unfold result_of, world_of, events_of in *. simpl in *.
    rewrite Hw, Hren, Hres. done.
  - destruct (QFile_rename src target (w_fs w)) as [ok fs1]. simpl.
    destruct ok; simpl; [|done].
    destruct (Hreload fs1) as (Hw & Hren & Hres).
    unfold result_of, world_of, events_of in *. simpl in *.
    rewrite Hw, Hren, Hres. done.
Qed.

Lemma rename_in_range_witness :
  0 <= 1 /\
  mDirectoryContents (w_model Toy.home_world) !! Z.to_nat 1
    = Some (Toy.file "/home" "a.txt" 2048) /\
  let fi := Toy.file "/home" "a.txt" 2048 in
  let src := QFileInfo.absoluteFilePath fi in
  let target := QFileInfo.absolutePath fi +:+ QDir_separator +:+ "z.txt" in
  let prim := if QFileInfo.isDir fi
              then Toy.rename_kind true src target (w_fs Toy.home_world)
              else Toy.rename_kind false src target (w_fs Toy.home_world) in
  let res := rename 1 "z.txt" Toy.home_world in
  let dir := @QDir_new Toy.platform (path (w_model Toy.home_world)) in
  result_of res = prim.1 /\
  w_fs (world_of res) = prim.2 /\
  List.filter is_rename (events_of res)
    = [if QFileInfo.isDir fi then FsRenameDir src target prim.1
       else FsRenameFile src target prim.1] /\
  List.filter is_reset (events_of res)
    = (if QFileInfo.isDir fi || prim.1 then [EvModelReset] else []) /\
  w_model (world_of res)
    = (if QFileInfo.isDir fi || prim.1
       then mkDirModel dir (@loaded_listing Toy.platform prim.2 dir)
              (mRoleMapping (w_model Toy.home_world))
       else w_model Toy.home_world).
Proof.
  assert (H1 : 0 <= 1) by lia.
  assert (H2 : mDirectoryContents (w_model Toy.home_world) !! Z.to_nat 1
               = Some (Toy.file "/home" "a.txt" 2048)) by reflexivity.
  split; [exact H1|]. split; [exact H2|].
  exact (rename_in_range Toy.home_world 1 "z.txt" _ H1 H2).
Defined.

(** X15. No command changes the role table, and [setPath] and [refresh]
    leave the file system alone. *)
Theorem commands_keep_role_table `{P : Platform} (w : World) :
  (forall pathName,
      mRoleMapping (w_model (world_of (setPath pathName w)))
        = mRoleMapping (w_model w) /\
      w_fs (world_of (setPath pathName w)) = w_fs w) /\
  (mRoleMapping (w_model (world_of (refresh w))) = mRoleMapping (w_model w) /\
   w_fs (world_of (refresh w)) = w_fs w) /\
  (forall paths,
      mRoleMapping (w_model (world_of (rm paths w))) = mRoleMapping (w_model w)) /\
  (forall r newName,
      mRoleMapping (w_model (world_of (rename r newName w)))
        = mRoleMapping (w_model w)).
Proof.
  split; [|split; [|split]].
  - intros pathName. by rewrite setPath_run.
  - by rewrite refresh_run, setPath_run.
  - intros paths. rewrite rm_run. unfold world_of. simpl.
    by rewrite refresh_run, setPath_run.
  - intros r newName.
    destruct (Z.lt_ge_cases r 0) as [Hneg|Hpos].
    { unfold rename, bind, qDebug, qWarning, emit, get_model, ret. simpl.
      replace ((r <? 0) || (r >=? count (w_model w))) with true
        by (symmetry; apply orb_true_iff; lia). done. }
    destruct (mDirectoryContents (w_model w) !! Z.to_nat r) as [fi|] eqn:Hfi.
    + rewrite (rename_run w r newName fi Hpos Hfi).
      destruct (QFileInfo.isDir fi).
      * destruct (QDir_rename _ _ _) as [ok fs1].
        unfold world_of. simpl. by rewrite refresh_run, setPath_run.
      * destruct (QFile_rename _ _ _) as [ok fs1].
        destruct ok; [|done].
        unfold world_of. simpl. by rewrite refresh_run, setPath_run.
    + unfold rename, bind, qDebug, qWarning, emit, get_model, ret. simpl.
      rewrite Hfi.
      by destruct ((r <? 0) || (r >=? count (w_model w))).
Qed.

Lemma removals_app `{P : Platform} (ps qs : list string) (fs : FileSystem) :
  removals (ps ++ qs) fs =
  ((removals qs (removals ps fs).1).1,
   (removals ps fs).2 ++ (removals qs (removals ps fs).1).2).
Proof.
  revert fs. induction ps as [|p ps IH]; intros fs; simpl.
  - by destruct (removals qs fs).
  - destruct (QFile_remove p fs) as [ok fs1]. rewrite IH.
    destruct (removals ps fs1) as [fs2 e2]. simpl.
    destruct (removals qs fs2) as [fs3 e3]. simpl.
    by rewrite <- app_assoc.
Qed.

(** X16. Once the current path has settled, removing in two batches
    leaves the world that removing in one batch leaves: the reload
    between the batches changes nothing that lasts. *)
Theorem rm_in_batches `{P : Platform} (w : World) (ps qs : list string) :
  QDir_cleanedPath (QDir_cleanedPath (path (w_model w)))
    = QDir_cleanedPath (path (w_model w)) ->
  world_of (rm qs (world_of (rm ps w))) = world_of (rm (ps ++ qs) w).
Proof.
  intros Hpath. rewrite !rm_run. unfold world_of. simpl.
  rewrite !refresh_run, !setPath_run. simpl.
  rewrite removals_app. simpl.
  unfold path, QDir_new in *. simpl. by rewrite Hpath.
Qed.

Lemma rm_in_batches_witness :
  Toy.cleanedPath (Toy.cleanedPath (path (w_model Toy.home_world)))
    = Toy.cleanedPath (path (w_model Toy.home_world)) /\
  world_of (rm ["/home/B.txt"%string]
              (world_of (rm ["/home/a.txt"%string] Toy.home_world)))
    = world_of (rm (["/home/a.txt"%string] ++ ["/home/B.txt"%string]) Toy.home_world).
Proof.
  assert (H : Toy.cleanedPath (Toy.cleanedPath (path (w_model Toy.home_world)))
              = Toy.cleanedPath (path (w_model Toy.home_world))) by reflexivity.
  split; [exact H|].
  exact (rm_in_batches Toy.home_world ["/home/a.txt"%string] ["/home/B.txt"%string] H).
Defined.

(** ** The listing invariant *)

Lemma loaded_listing_invariant `{P : Platform} (fs : FileSystem) (dir : QDir)
    (roles : gmap string Z) :
  std_sort_contract -> collation_contract ->
  listing_invariant (mkDirModel dir (loaded_listing fs dir) roles).
Proof.
  intros Hsort Hcoll. split; simpl.
  - by apply loaded_listing_ascending.
  - apply Forall_lookup. intros i fi Hi.
    by eapply loaded_listing_not_hidden.
Qed.

(** X17. The model the constructor builds has a listing in ascending
    order of [fileCompare] without hidden names, and every command,
    however it ends, leaves such a listing when it found one. *)
Theorem commands_keep_listing_invariant `{P : Platform} (w : World) :
  std_sort_contract -> collation_contract ->
  listing_invariant DirModel_new /\
  (listing_invariant (w_model w) ->
   (forall pathName, listing_invariant (w_model (world_of (setPath pathName w)))) /\
   listing_invariant (w_model (world_of (refresh w))) /\
   (forall paths, listing_invariant (w_model (world_of (rm paths w)))) /\
   (forall r newName, listing_invariant (w_model (world_of (rename r newName w))))).
Proof.
  intros Hsort Hcoll. split.
  { split; simpl; constructor. }
  intros Hinv.
  assert (Hreload : forall fs1 m1,
            listing_invariant (w_model (world_of (refresh (mkWorld fs1 m1))))).
  { intros fs1 m1. rewrite refresh_run, setPath_run. unfold world_of. simpl.
    by apply loaded_listing_invariant. }
  split; [|split; [|split]].
  - intros pathName. rewrite setPath_run. unfold world_of. simpl.
    by apply loaded_listing_invariant.
  - destruct w as [fs m]. apply Hreload.
  - intros paths. rewrite rm_run. simpl. apply Hreload.
  - intros r newName.
    destruct (Z.lt_ge_cases r 0) as [Hneg|Hpos].
    { unfold rename, bind, qDebug, qWarning, emit, get_model, ret. simpl.
      replace ((r <? 0) || (r >=? count (w_model w))) with true
        by (symmetry; apply orb_true_iff; lia). done. }
    destruct (mDirectoryContents (w_model w) !! Z.to_nat r) as [fi|] eqn:Hfi.
    + rewrite (rename_run w r newName fi Hpos Hfi).
      destruct (QFileInfo.isDir fi).
      * destruct (QDir_rename _ _ _) as [ok fs1]. apply Hreload.
      * destruct (QFile_rename _ _ _) as [ok fs1].
        destruct ok; [apply Hreload|done].
    + unfold rename, bind, qDebug, qWarning, emit, get_model, ret. simpl.
      rewrite Hfi.
      by destruct ((r <? 0) || (r >=? count (w_model w))).
Qed.

Lemma commands_keep_listing_invariant_witness :
  @std_sort_contract Toy.platform /\ @collation_contract Toy.platform /\
  @listing_invariant Toy.platform (w_model Toy.home_world) /\
  mDirectoryContents (w_model Toy.home_world) <> [] /\
  @listing_invariant Toy.platform (@DirModel_new Toy.platform) /\
  (@listing_invariant Toy.platform (w_model Toy.home_world) ->
   (forall pathName,
       @listing_invariant Toy.platform (w_model (world_of (setPath pathName Toy.home_world)))) /\
   @listing_invariant Toy.platform (w_model (world_of (refresh Toy.home_world))) /\
   (forall paths, @listing_invariant Toy.platform (w_model (world_of (rm paths Toy.home_world)))) /\
   (forall r newName,
       @listing_invariant Toy.platform (w_model (world_of (rename r newName Toy.home_world))))).
Proof.
  assert (Hinv : @listing_invariant Toy.platform (w_model Toy.home_world)).
  { exact (@loaded_listing_invariant Toy.platform Toy.home_fs (mkQDir "/home")
             (populate_reverse DirModel_roles)
             toy_sort_contract toy_collation_contract). }
  split; [exact toy_sort_contract|]. split; [exact toy_collation_contract|].
  split; [exact Hinv|]. split; [discriminate|].
  exact (commands_keep_listing_invariant Toy.home_world
           toy_sort_contract toy_collation_contract).
Defined.
